(** * Audio ingestion and normalisation pipeline of the Ralph voice STT server

    A shallow embedding of [ralph-voice-app/python/stt_server.py]:
    [detect_audio_format] (magic-byte sniffing), [convert_to_wav]
    (decode, peak normalisation, int16 quantisation, canonical WAV
    serialisation), [transcribe_audio] (the orchestrator around the
    external decoder and the speech-recognition model), [load_model] and
    the methods of [STTHandler].

    Data model:
    - a [bytes] object is a [list byte];
    - a Python float is a [spec_float] (IEEE-754 binary64); a numpy
      [float32] is a [spec_float] read at precision 24 and exponent
      bound 128 (IEEE-754 binary32), with the rounding and the arithmetic
      of the Standard Library's [SpecFloat];
    - a numpy [int16] is a [Z] in [-32768, 32767];
    - a [str] that is only copied, compared or joined (a format name, a
      path, a message) is a [string]; the text the model returns, whose
      characters [str.strip] inspects, is a [py_str], the list of its
      code points;
    - Python exceptions are values of [exn]; a function that may raise
      returns [exn + A];
    - the external collaborators (PyAV, faster-whisper, the temporary
      file) are fields of a [world] record, and the calls made to them
      are recorded in a trace of [event]s. *)

From Stdlib Require Import ZArith List String Ascii Bool Lia.
From Stdlib Require Import QArith Qpower Qround.
From Stdlib Require Import Floats.SpecFloat.
From coqutil Require Import Byte Word.LittleEndianList.
Import ListNotations.

Local Open Scope string_scope.
Local Open Scope list_scope.
Local Open Scope Z_scope.

(** ** Bytes objects *)

Definition bytes := list byte.

(** [b"..."] literals. *)
Definition b (s : string) : bytes := list_byte_of_string s.

(** [x == y] on two [bytes] objects. *)
Fixpoint bytes_eqb (x y : bytes) : bool :=
  match x, y with
  | [], [] => true
  | c :: x', d :: y' => Byte.eqb c d && bytes_eqb x' y'
  | _, _ => false
  end.

(** [data[:n]]: slicing never raises, a short object yields what there is. *)
Definition slice_to (n : nat) (data : bytes) : bytes := firstn n data.

(** Little-endian reading of [len] bytes at offset [off]. *)
Definition read_le (off len : nat) (data : bytes) : Z :=
  le_combine (firstn len (skipn off data)).

(** Two's complement reading of a 16-bit pattern. *)
Definition signed16 (u : Z) : Z := if u <? 32768 then u else u - 65536.

Definition read_i16 (off : nat) (data : bytes) : Z :=
  signed16 (read_le off 2 data).

Definition is_int16 (v : Z) : Prop := -32768 <= v <= 32767.

(** ** Exceptions *)

Inductive exn :=
| ValueError (msg : string)
| StructError (msg : string)
| ExternalError (msg : string).

(** [str(e)] *)
Definition str_exn (e : exn) : string :=
  match e with
  | ValueError m | StructError m | ExternalError m => m
  end.

Definition result (A : Type) : Type := exn + A.

Definition ret {A} (a : A) : result A := inr a.
Definition raise {A} (e : exn) : result A := inl e.
Definition bind {A B} (m : result A) (k : A -> result B) : result B :=
  match m with
  | inl e => inl e
  | inr a => k a
  end.

Notation "x <- m ;; k" := (bind m (fun x => k))
  (at level 61, m at next level, right associativity).

(** ** FormatSniffer: [detect_audio_format] *)

Definition detect_audio_format (audio_data : bytes) : option string :=
  if bytes_eqb (slice_to 4 audio_data) (b "RIFF") then Some "wav"
  else if bytes_eqb (slice_to 4 audio_data) [Byte.x1a; Byte.x45; Byte.xdf; Byte.xa3]
  then Some "webm"
  else if bytes_eqb (slice_to 3 audio_data) (b "ID3")
          || bytes_eqb (slice_to 2 audio_data) [Byte.xff; Byte.xfb]
  then Some "mp3"
  else if bytes_eqb (slice_to 4 audio_data) (b "OggS") then Some "ogg"
  else if bytes_eqb (slice_to 4 audio_data) (b "fLaC") then Some "flac"
  else None.

(** The detection table of the specification, in its priority order: each
    row lists the signatures of a format; [classify_spec] returns the
    format of the first row one of whose signatures is a prefix of the
    blob, and [None] (UNKNOWN) when no row matches. *)
Definition signature_table : list (list bytes * string) :=
  [ ([[Byte.x52; Byte.x49; Byte.x46; Byte.x46]], "wav");
    ([[Byte.x1a; Byte.x45; Byte.xdf; Byte.xa3]], "webm");
    ([[Byte.x49; Byte.x44; Byte.x33]; [Byte.xff; Byte.xfb]], "mp3");
    ([[Byte.x4f; Byte.x67; Byte.x67; Byte.x53]], "ogg");
    ([[Byte.x66; Byte.x4c; Byte.x61; Byte.x43]], "flac") ].

Fixpoint is_prefix (sig blob : bytes) : bool :=
  match sig, blob with
  | [], _ => true
  | c :: sig', d :: blob' => Byte.eqb c d && is_prefix sig' blob'
  | _ :: _, [] => false
  end.

Fixpoint first_match (table : list (list bytes * string)) (blob : bytes)
  : option string :=
  match table with
  | [] => None
  | (sigs, fmt) :: rest =>
      if existsb (fun sig => is_prefix sig blob) sigs then Some fmt
      else first_match rest blob
  end.

Definition classify_spec (blob : bytes) : option string :=
  first_match signature_table blob.

(** ** WavEncoder: the serialisation part of [convert_to_wav] *)

(** [struct.pack('<I', v)]: raises [struct.error] outside [0, 2^32). *)
Definition struct_pack_I (v : Z) : result bytes :=
  if (0 <=? v) && (v <=? 4294967295) then ret (le_split 4 v)
  else raise (StructError "'I' format requires 0 <= number <= 4294967295").

(** [struct.pack('<H', v)]: raises [struct.error] outside [0, 2^16). *)
Definition struct_pack_H (v : Z) : result bytes :=
  if (0 <=? v) && (v <=? 65535) then ret (le_split 2 v)
  else raise (StructError "'H' format requires 0 <= number <= 65535").

(** [samples_int16.tobytes()]: two bytes per sample, two's complement,
    in the byte order of the host, which is little-endian on every
    platform the server runs on. *)
Definition tobytes (samples_int16 : list Z) : bytes :=
  flat_map (le_split 2) samples_int16.

(** Lines 124-146 of [convert_to_wav]: the successive [wav_buffer.write]
    calls, then [wav_buffer.getvalue()]. *)
Definition write_wav (samples_int16 : list Z) : result bytes :=
  let num_samples := Z.of_nat (List.length samples_int16) in
  let data_size := num_samples * 2 in
  let wav_buffer := b "RIFF" in
  riff_size <- struct_pack_I (36 + data_size) ;;
  let wav_buffer := wav_buffer ++ riff_size in
  let wav_buffer := wav_buffer ++ b "WAVE" in
  let wav_buffer := wav_buffer ++ b "fmt " in
  subchunk1_size <- struct_pack_I 16 ;;
  let wav_buffer := wav_buffer ++ subchunk1_size in
  audio_format <- struct_pack_H 1 ;;
  let wav_buffer := wav_buffer ++ audio_format in
  num_channels <- struct_pack_H 1 ;;
  let wav_buffer := wav_buffer ++ num_channels in
  sample_rate <- struct_pack_I 16000 ;;
  let wav_buffer := wav_buffer ++ sample_rate in
  byte_rate <- struct_pack_I (16000 * 2) ;;
  let wav_buffer := wav_buffer ++ byte_rate in
  block_align <- struct_pack_H 2 ;;
  let wav_buffer := wav_buffer ++ block_align in
  bits_per_sample <- struct_pack_H 16 ;;
  let wav_buffer := wav_buffer ++ bits_per_sample in
  let wav_buffer := wav_buffer ++ b "data" in
  data_chunk_size <- struct_pack_I data_size ;;
  let wav_buffer := wav_buffer ++ data_chunk_size in
  let wav_buffer := wav_buffer ++ tobytes samples_int16 in
  ret wav_buffer.

(** ** A reader for the canonical layout *)

(** Consecutive 16-bit little-endian signed samples. *)
Fixpoint unpack_int16 (data : bytes) : list Z :=
  match data with
  | lo :: hi :: rest => signed16 (le_combine [lo; hi]) :: unpack_int16 rest
  | _ => []
  end.

Record wav_info := {
  wav_sample_rate : Z;
  wav_channel_count : Z;
  wav_samples : list Z
}.

(** Modelled from the spec: the repository has no WAV reader (a WAV blob
    is handed to the model untouched), so the parser of the round-trip
    property follows the byte layout of the specification's section 4.4:
    the four chunk tags at offsets 0, 8, 12 and 36, the channel count at
    offset 22, the sample rate at offset 24, the data size at offset 40
    and that many bytes of 16-bit little-endian samples from offset 44.
    A blob whose tags differ or whose data chunk is cut short is rejected. *)
Definition parse_wav (wav : bytes) : option wav_info :=
  if bytes_eqb (firstn 4 wav) (b "RIFF")
     && bytes_eqb (firstn 4 (skipn 8 wav)) (b "WAVE")
     && bytes_eqb (firstn 4 (skipn 12 wav)) (b "fmt ")
     && bytes_eqb (firstn 4 (skipn 36 wav)) (b "data")
  then
    let data_size := read_le 40 4 wav in
    let data := skipn 44 wav in
    if Z.of_nat (List.length data) <? data_size then None
    else Some {| wav_sample_rate := read_le 24 4 wav;
                 wav_channel_count := read_le 22 2 wav;
                 wav_samples := unpack_int16 (firstn (Z.to_nat data_size) data) |}
  else None.

(** ** Python floats and numpy float32 arithmetic *)

(** A Python [float]: an IEEE-754 binary64 datum. *)
Definition py_float := spec_float.

Definition float32 := spec_float.

Definition prec32 : Z := 24.
Definition emax32 : Z := 128.

(** The [float32] cell a Python float is stored in: the nearest float32,
    an infinity when the float lies beyond the float32 range. *)
Definition f32_of_float (x : py_float) : float32 :=
  match x with
  | S754_finite s m e => binary_round prec32 emax32 s m e
  | S754_zero _ | S754_infinity _ | S754_nan => x
  end.

(** [np.array(samples, dtype=np.float32)] *)
Definition np_array_float32 (samples : list py_float) : list float32 :=
  map f32_of_float samples.

(** The data a [float32] cell can hold: a canonical mantissa and an
    exponent within the binary32 range. *)
Definition f32_valid (x : float32) : bool := valid_binary prec32 emax32 x.

Definition f32_finite (x : float32) : bool :=
  match x with
  | S754_zero _ | S754_finite _ _ _ => true
  | S754_infinity _ | S754_nan => false
  end.

Definition f32_isnan (x : float32) : bool :=
  match x with
  | S754_nan => true
  | _ => false
  end.

Definition f32_div (x y : float32) : float32 := SFdiv prec32 emax32 x y.
Definition f32_mul (x y : float32) : float32 := SFmul prec32 emax32 x y.

(** The [float32] nearest to a Python integer: the scalar operand of
    [samples_array * 32767]. *)
Definition f32_of_int (n : Z) : float32 :=
  binary_normalize prec32 emax32 n 0 false.

Definition f32_zero : float32 := S754_zero false.

(** [np.abs] *)
Definition np_abs (a : list float32) : list float32 := map SFabs a.

(** [np.maximum] on two scalars: a NaN on either side is propagated. *)
Definition np_maximum (x y : float32) : float32 :=
  if f32_isnan x || SFleb y x then x else y.

(** [np.max]: raises [ValueError] on a zero-size array. *)
Definition np_max (a : list float32) : result float32 :=
  match a with
  | [] => raise (ValueError
            "zero-size array to reduction operation maximum which has no identity")
  | x :: rest => ret (fold_left np_maximum rest x)
  end.

(** [x > y] on two scalars ([False] when one of them is NaN). *)
Definition f32_gt (x y : float32) : bool := SFltb y x.

(** The integer part of a finite float, rounded toward zero. *)
Definition f32_trunc (x : float32) : option Z :=
  match x with
  | S754_zero _ => Some 0
  | S754_finite s m e =>
      let a := Z.shiftl (Z.pos m) e in
      Some (if s then - a else a)
  | S754_infinity _ | S754_nan => None
  end.

Definition wrap16 (z : Z) : Z := signed16 (z mod 65536).

Section Pipeline.

(** [ndarray.astype(np.int16)] is a C conversion from [float] to [short]:
    it drops the fraction, and its result is not defined by the language
    for a NaN, an infinity or an integer part outside the [short] range.
    What the host produces there is [cast_invalid], reduced to 16 bits. *)
Variable cast_invalid : float32 -> Z.

Definition astype_int16 (x : float32) : Z :=
  match f32_trunc x with
  | Some v =>
      if (-32768 <=? v) && (v <=? 32767) then v else wrap16 (cast_invalid x)
  | None => wrap16 (cast_invalid x)
  end.

(** Lines 119-121 of [convert_to_wav]: peak normalisation. *)
Definition peak_normalize (samples_array : list float32) : result (list float32) :=
  max_val <- np_max (np_abs samples_array) ;;
  if f32_gt max_val f32_zero
  then ret (map (fun x => f32_div x max_val) samples_array)
  else ret samples_array.

(** Line 122: [(samples_array * 32767).astype(np.int16)]. *)
Definition quantize (samples_array : list float32) : list Z :=
  map (fun x => astype_int16 (f32_mul x (f32_of_int 32767))) samples_array.

(** Lines 111-122 of [convert_to_wav]. *)
Definition normalize (samples : list py_float) : result (list Z) :=
  match samples with
  | [] => raise (ValueError "No audio samples decoded")
  | _ :: _ =>
      let samples_array := np_array_float32 samples in
      samples_array <- peak_normalize samples_array ;;
      let samples_int16 := quantize samples_array in
      ret samples_int16
  end.

(** ** The external collaborators *)

(** A stream of a PyAV container: its [type], and what iterating
    [input_container.decode(stream)] gives, each frame already turned into
    its flat mono sample list (lines 103-107), or the exception the
    decoder raises on the way. *)
Record av_stream := {
  stream_type : string;
  stream_frames : result (list (list py_float))
}.

(** A Python [str] whose characters are inspected, by its code points. *)
Definition py_str := list N.

(** The [str] of an ASCII literal. *)
Definition str (s : string) : py_str :=
  map N_of_ascii (list_ascii_of_string s).

(** Output of [model.transcribe]: the texts of the segments and the
    [info] fields the server reads. *)
Record transcription := {
  segment_texts : list py_str;
  info_language : string;
  info_duration : spec_float
}.

Record world := {
  (** [load_model()]: the cached model, or the exception of a failed load *)
  load_model : result unit;
  (** [av.open(io.BytesIO(audio_data), format=input_format).streams] *)
  av_open : bytes -> option string -> result (list av_stream);
  (** the [with] block of lines 192-194: the path of the file it leaves
      written and closed, or the exception raised by the creation of the
      file, by [f.write] or by the close that ends the block *)
  named_temporary_file : result string;
  (** when that block raises after the file was created: the file it
      leaves behind ([delete=False]), with what has reached it *)
  temp_file_left : option (string * bytes);
  (** [model.transcribe(path, ...)], a function of what the file holds
      ([None] when there is no such file) *)
  model_transcribe : option bytes -> result transcription;
  (** whether [os.unlink] succeeds *)
  os_unlink_ok : bool
}.

(** The files of the temporary directory, most recent binding first. *)
Definition files := list (string * bytes).

Definition file_read (path : string) (fs : files) : option bytes :=
  match find (fun entry => String.eqb (fst entry) path) fs with
  | Some entry => Some (snd entry)
  | None => None
  end.

Definition file_write (path : string) (data : bytes) (fs : files) : files :=
  (path, data) :: fs.

Definition file_unlink (path : string) (fs : files) : files :=
  filter (fun entry => negb (String.eqb (fst entry) path)) fs.

(** What [transcribe_audio] does outside the process, in order: a
    conversion attempted, a temporary file written and closed, the model
    run on a path, an unlink attempted. *)
Inductive event :=
| EvConvert (audio_data : bytes) (input_format : option string)
| EvTempWrite (path : string) (data : bytes)
| EvTranscribe (path : string)
| EvUnlink (path : string).

(** ** [convert_to_wav] *)

Definition find_audio_stream (streams : list av_stream) : option av_stream :=
  find (fun stream => String.eqb (stream_type stream) "audio") streams.

(** The [except Exception] clause logs and re-raises: the exception the
    caller sees is the one raised in the body. *)
Definition convert_to_wav (w : world) (audio_data : bytes)
    (input_format : option string) : result bytes :=
  streams <- av_open w audio_data input_format ;;
  match find_audio_stream streams with
  | None => raise (ValueError "No audio stream found")
  | Some audio_stream =>
      frames <- stream_frames audio_stream ;;
      let samples := List.concat frames in
      samples_int16 <- normalize samples ;;
      write_wav samples_int16
  end.

(** ** [transcribe_audio] *)

(** The dictionary returned to the handler; an absent key is [None]. *)
Record response := {
  success : bool;
  text : py_str;
  error : option string;
  language : option string;
  duration : option spec_float
}.

(** [str.isspace] on one character: the code points CPython holds as
    white space. *)
Definition is_space (c : N) : bool :=
  (((9 <=? c) && (c <=? 13)) || ((28 <=? c) && (c <=? 32))
   || (c =? 133) || (c =? 160) || (c =? 5760)
   || ((8192 <=? c) && (c <=? 8202))
   || (c =? 8232) || (c =? 8233) || (c =? 8239) || (c =? 8287)
   || (c =? 12288))%N.

Fixpoint lstrip (s : py_str) : py_str :=
  match s with
  | c :: s' => if is_space c then lstrip s' else s
  | [] => []
  end.

Fixpoint rstrip (s : py_str) : py_str :=
  match s with
  | c :: s' =>
      match rstrip s' with
      | [] => if is_space c then [] else [c]
      | r => c :: r
      end
  | [] => []
  end.

(** [str.strip()] *)
Definition strip (s : py_str) : py_str := rstrip (lstrip s).

(** [sep.join(parts)] *)
Fixpoint str_join (sep : py_str) (parts : list py_str) : py_str :=
  match parts with
  | [] => []
  | x :: rest =>
      match rest with
      | [] => x
      | _ :: _ => x ++ sep ++ str_join sep rest
      end
  end.

Definition format_is_wav (detected_format : option string) : bool :=
  match detected_format with
  | Some f => String.eqb f "wav"
  | None => false
  end.

Definition failure (message : string) : response :=
  {| success := false; text := []; error := Some message;
     language := None; duration := None |}.

(** The files after a [with] block that raised. *)
Definition left_behind (w : world) (fs : files) : files :=
  match temp_file_left w with
  | Some (path, content) => file_write path content fs
  | None => fs
  end.

(** Lines 191-234: the temporary file, the model call, the clean-up.  An
    exception of the [with] block is raised to the caller before the [try]
    is entered: the model is not run and [os.unlink] is not called, so a
    file the block has created stays. *)
Definition transcribe_file (w : world) (audio_data : bytes) (fs : files)
  : result response * files * list event :=
  match named_temporary_file w with
  | inl e => (inl e, left_behind w fs, [])
  | inr temp_path =>
      let fs := file_write temp_path audio_data fs in
      let answer :=
        match model_transcribe w (file_read temp_path fs) with
        | inr t =>
            let text_parts := map strip (segment_texts t) in
            let full_text := strip (str_join (str " ") text_parts) in
            {| success := true; text := full_text; error := None;
               language := Some (info_language t);
               duration := Some (info_duration t) |}
        | inl e => failure (str_exn e)
        end in
      let fs' := if os_unlink_ok w then file_unlink temp_path fs else fs in
      (inr answer, fs',
       [EvTempWrite temp_path audio_data; EvTranscribe temp_path;
        EvUnlink temp_path])
  end.

Definition transcribe_audio (w : world) (audio_data : bytes) (fs : files)
  : result response * files * list event :=
  match load_model w with
  | inl e => (inl e, fs, [])
  | inr _ =>
      let detected_format := detect_audio_format audio_data in
      if negb (format_is_wav detected_format) then
        match convert_to_wav w audio_data detected_format with
        | inl e =>
            (inr (failure ("Audio conversion failed: " ++ str_exn e)%string),
             fs, [EvConvert audio_data detected_format])
        | inr wav_data =>
            let '(r, fs', tr) := transcribe_file w wav_data fs in
            (r, fs', EvConvert audio_data detected_format :: tr)
        end
      else transcribe_file w audio_data fs
  end.

End Pipeline.

(** ** The rational value of a float *)

Definition bpow (e : Z) : Q := (2 ^ e)%Q.

(** [m * 2^e] *)
Definition F2Q (m e : Z) : Q := (inject_Z m * bpow e)%Q.

(** Magnitude of a finite float ([0] for what has none). *)
Definition SFmag (x : spec_float) : Q :=
  match x with
  | S754_finite _ m e => F2Q (Z.pos m) e
  | _ => 0%Q
  end.

(** Value of a finite float ([0] for what has none). *)
Definition SF2Q (x : spec_float) : Q :=
  match x with
  | S754_finite s m e => if s then (- F2Q (Z.pos m) e)%Q else F2Q (Z.pos m) e
  | _ => 0%Q
  end.

Definition shr_inexact (mrs : shr_record) : bool := shr_r mrs || shr_s mrs.

(** The mantissa [shr_m mrs] at exponent [e] approximates [v] from below,
    strictly when a sticky or round bit is set. *)
Definition below (v : Q) (e : Z) (mrs : shr_record) : Prop :=
  0 <= shr_m mrs /\
  (F2Q (shr_m mrs) e <= v)%Q /\
  (shr_inexact mrs = true -> (F2Q (shr_m mrs) e < v)%Q).

(** The integer part of a rational, toward zero. *)
Definition Qtrunc (v : Q) : Z :=
  if Qle_bool 0 v then Qfloor v else Qceiling v.

(** What [np.abs] makes of a finite cell: the sign cleared, the mantissa
    canonical and the exponent within range. *)
Definition magnitude (prec emax : Z) (x : spec_float) : Prop :=
  match x with
  | S754_zero s => s = false
  | S754_finite s m e => s = false /\ bounded prec emax m e = true
  | _ => False
  end.

(** [round]: the nearest integer, a tie going to the even neighbour, as
    Python's [round] and numpy's [rint] do. *)
Definition round_nearest (v : Q) : Z :=
  let f := Qfloor v in
  match Qcompare (v - inject_Z f) (1 # 2) with
  | Lt => f
  | Gt => f + 1
  | Eq => if Z.even f then f else f + 1
  end.

Definition clamp16 (z : Z) : Z := Z.max (-32768) (Z.min 32767 z).

(** The quantisation rule of the specification's section 4.3, step 4:
    [round(s * 32767)] clamped to the int16 range. *)
Definition quantize_spec (s : float32) : Z :=
  clamp16 (round_nearest (SF2Q (f32_mul s (f32_of_int 32767)))).

(** A [float32] array whose cells are all finite. *)
Definition finite_samples (samples_array : list float32) : Prop :=
  Forall (fun x => f32_finite x = true) samples_array.

(** Finite cells holding float32 data. *)
Definition finite_cells (samples_array : list float32) : Prop :=
  Forall (fun x => f32_finite x = true /\ f32_valid x = true) samples_array.

Definition f32_signbit (x : float32) : bool :=
  match x with
  | S754_zero s | S754_infinity s | S754_finite s _ _ => s
  | S754_nan => false
  end.

(** ** Sample data *)

(** 0.25 and 1.0 as Python floats and as [float32]. *)
Definition py_quarter : py_float := S754_finite false 4503599627370496 (-54).
Definition py_one : py_float := S754_finite false 4503599627370496 (-52).
Definition f32_quarter : float32 := S754_finite false 8388608 (-25).
Definition f32_one : float32 := S754_finite false 8388608 (-23).

(** 2^-248, a Python float too small for [float32], and 2^128, one too
    large. *)
Definition py_tiny : py_float := S754_finite false 4503599627370496 (-300).



(** A host whose out-of-range conversions give 0. *)
Definition cast_zero : float32 -> Z := fun _ => 0.

(** A world whose decoder finds one audio stream holding the given frames,
    and whose model answers with one segment. *)
Definition sample_world (frames : list (list py_float)) : world :=
  {| load_model := inr tt;
     av_open := fun _ _ =>
       inr [ {| stream_type := "video"; stream_frames := inr [] |};
             {| stream_type := "audio"; stream_frames := inr frames |} ];
     named_temporary_file := inr "/tmp/tmpq1w2e3.wav";
     temp_file_left := None;
     model_transcribe := fun content =>
       match content with
       | Some _ => inr {| segment_texts := [str " hello"; str " world "];
                          info_language := "en";
                          info_duration := S754_zero false |}
       | None => inl (ExternalError "No such file or directory")
       end;
     os_unlink_ok := true |}.

(** ** The model cache: [load_model] *)

(** How a call ends: with a value, with an [Exception], or in [sys.exit]. *)
Inductive outcome (A : Type) : Type :=
| Returned (a : A)
| Raised (e : exn)
| Exited (code : Z).

Arguments Returned {A} a.
Arguments Raised {A} e.
Arguments Exited {A} code.

(** A [WhisperModel] instance, known by the arguments it was built with. *)
Record whisper := {
  model_size : string;
  model_device : string;
  model_compute_type : string
}.

(** What [WhisperModel(...)] does: it returns, raises [ImportError], or
    raises another exception. *)
Inductive init_outcome :=
| InitOk
| InitImportError
| InitRaises (e : exn).

Record model_env := {
  (** the module global [model_name] *)
  model_name : string;
  (** whether [from faster_whisper import WhisperModel] succeeds *)
  faster_whisper_importable : bool;
  (** [import torch; torch.cuda.is_available()]: the answer, [None] when
      the block raises [ImportError], or the other exception it raises *)
  torch_cuda : result (option bool);
  whisper_model_init : whisper -> init_outcome
}.

(** [load_model()], on the module global [whisper_model]: the outcome of
    the call and the new value of the global. *)
Definition load_model_run (env : model_env) (whisper_model : option whisper)
  : outcome whisper * option whisper :=
  match whisper_model with
  | Some m => (Returned m, whisper_model)
  | None =>
      if faster_whisper_importable env then
        let device := "cpu" in
        let compute_type := "int8" in
        match torch_cuda env with
        | inl e => (Raised e, None)
        | inr cuda =>
            let '(device, compute_type) :=
              match cuda with
              | Some true => ("cuda", "float16")
              | Some false | None => (device, compute_type)
              end in
            let m := {| model_size := model_name env;
                        model_device := device;
                        model_compute_type := compute_type |} in
            match whisper_model_init env m with
            | InitOk => (Returned m, Some m)
            | InitImportError => (Exited 1, None)
            | InitRaises e => (Raised e, None)
            end
        end
      else (Exited 1, None)
  end.

(** ** The HTTP handler: [STTHandler] *)

(** [needle in haystack] on two strings. *)
Fixpoint str_contains (needle haystack : string) : bool :=
  String.prefix needle haystack
  || match haystack with
     | String _ rest => str_contains needle rest
     | EmptyString => false
     end.

(** What the handler reads of a request. *)
Record request := {
  req_path : string;
  (** [self.headers.get('Content-Type')] *)
  req_content_type : option string;
  (** [int(self.headers.get('Content-Length', 0))]: the number, or the
      exception [int] raises on the header *)
  req_content_length : result Z;
  (** the bytes the connection delivers to [self.rfile] *)
  req_rfile : bytes;
  (** the exception [self.rfile.read(n)] raises on a length [n >= 0] that
      the host cannot serve ([OverflowError] beyond [sys.maxsize],
      [MemoryError] when the buffer cannot be allocated) *)
  req_read_raises : Z -> option exn;
  (** [cgi.FieldStorage(...)] on the request: the exception it raises, or
      what reading the ['file'] field gives ([None] without such a field) *)
  req_form_file : result (option bytes)
}.

(** [self.rfile.read(n)] on the buffered reader of the connection: at most
    [n] bytes, everything for [-1], [ValueError] for a smaller [n]. *)
Definition rfile_read (read_raises : Z -> option exn) (n : Z) (rfile : bytes)
  : result bytes :=
  if n <? -1 then raise (ValueError "read length must be non-negative or -1")
  else if n =? -1 then ret rfile
  else
    match read_raises n with
    | Some e => raise e
    | None => ret (firstn (Z.to_nat n) rfile)
    end.

(** The dictionaries handed to [json.dumps]. *)
Inductive json_body :=
| JsonResult (r : response)
| JsonError (message : string)
| JsonHealth (health : string) (model : string) (ready : bool).

Record http_response := {
  status : Z;
  headers : list (string * string);
  body : option json_body
}.

Definition send_json (data : json_body) (code : Z) : http_response :=
  {| status := code;
     headers := [("Content-Type", "application/json");
                 ("Access-Control-Allow-Origin", "*")];
     body := Some data |}.

Definition do_OPTIONS : http_response :=
  {| status := 200;
     headers := [("Access-Control-Allow-Origin", "*");
                 ("Access-Control-Allow-Methods", "GET, POST, OPTIONS");
                 ("Access-Control-Allow-Headers", "Content-Type")];
     body := None |}.

Definition do_GET (env : model_env) (whisper_model : option whisper)
    (path : string) : http_response :=
  if String.eqb path "/health" then
    send_json (JsonHealth "healthy" (model_name env)
                 (match whisper_model with Some _ => true | None => false end))
              200
  else send_json (JsonError "Not found") 404.

(** The body of the [try] block of [do_POST]: the response sent, or the
    exception that reaches the [except] clause. *)
Definition do_POST_try (cast_invalid : float32 -> Z) (w : world)
    (req : request) (fs : files)
  : result http_response * files * list event :=
  let content_type :=
    match req_content_type req with Some t => t | None => "" end in
  match req_content_length req with
  | inl e => (inl e, fs, [])
  | inr content_length =>
      if content_length =? 0 then
        (inr (send_json (JsonError "No audio data") 400), fs, [])
      else
        let read :=
          if str_contains "multipart/form-data" content_type then
            match req_form_file req with
            | inl e => inl (inl e)
            | inr (Some audio_data) => inr audio_data
            | inr None =>
                inl (inr (send_json
                            (JsonError "No 'file' field in form data") 400))
            end
          else
            match rfile_read (req_read_raises req) content_length
                    (req_rfile req) with
            | inl e => inl (inl e)
            | inr audio_data => inr audio_data
            end in
        match read with
        | inl (inl e) => (inl e, fs, [])
        | inl (inr early) => (inr early, fs, [])
        | inr audio_data =>
            match audio_data with
            | [] =>
                (inr (send_json (JsonError "No audio data received") 400),
                 fs, [])
            | _ :: _ =>
                match transcribe_audio cast_invalid w audio_data fs with
                | (inl e, fs', tr) => (inl e, fs', tr)
                | (inr result, fs', tr) =>
                    if success result
                    then (inr (send_json (JsonResult result) 200), fs', tr)
                    else (inr (send_json (JsonResult result) 500), fs', tr)
                end
            end
        end
  end.

Definition do_POST (cast_invalid : float32 -> Z) (w : world)
    (req : request) (fs : files) : http_response * files * list event :=
  if str_contains "/transcribe" (req_path req) then
    match do_POST_try cast_invalid w req fs with
    | (inr sent, fs', tr) => (sent, fs', tr)
    | (inl e, fs', tr) => (send_json (JsonError (str_exn e)) 500, fs', tr)
    end
  else (send_json (JsonError "Not found") 404, fs, []).

(** ** Shapes of strings and responses *)

Definition starts_with_space (s : py_str) : bool :=
  match s with
  | c :: _ => is_space c
  | [] => false
  end.

Fixpoint ends_with_space (s : py_str) : bool :=
  match s with
  | [] => false
  | c :: rest =>
      match rest with
      | [] => is_space c
      | _ :: _ => ends_with_space rest
      end
  end.

(** The environment of a machine with the library and no GPU. *)
Definition sample_env : model_env :=
  {| model_name := "base.en";
     faster_whisper_importable := true;
     torch_cuda := inr None;
     whisper_model_init := fun _ => InitOk |}.

(** A raw POST of the given body to [/transcribe]. *)
Definition sample_request (data : bytes) : request :=
  {| req_path := "/transcribe";
     req_content_type := Some "audio/webm";
     req_content_length := inr (Z.of_nat (List.length data));
     req_rfile := data;
     req_read_raises := fun _ => None;
     req_form_file := inl (ExternalError "not a multipart request") |}.

(** The same world with [os.unlink] succeeding or failing. *)
Definition with_unlink (ok : bool) (w : world) : world :=
  {| load_model := load_model w;
     av_open := av_open w;
     named_temporary_file := named_temporary_file w;
     temp_file_left := temp_file_left w;
     model_transcribe := model_transcribe w;
     os_unlink_ok := ok |}.

(** The same request with other bytes on the connection. *)
Definition with_rfile (data : bytes) (req : request) : request :=
  {| req_path := req_path req;
     req_content_type := req_content_type req;
     req_content_length := req_content_length req;
     req_rfile := data;
     req_read_raises := req_read_raises req;
     req_form_file := req_form_file req |}.

(** [data.get('error')] on a dictionary handed to [send_json]. *)
Definition json_get_error (data : json_body) : option string :=
  match data with
  | JsonResult r => error r
  | JsonError message => Some message
  | JsonHealth _ _ _ => None
  end.

(** The sample world on a host where [os.unlink] fails. *)
Definition no_unlink_world : world :=
  with_unlink false (sample_world [[py_quarter]; [py_one]]).

(** A POST to [/transcribe] whose [Content-Length] is not a number. *)
Definition bad_length_request : request :=
  {| req_path := "/transcribe";
     req_content_type := None;
     req_content_length :=
       inl (ValueError "invalid literal for int() with base 10: 'abc'");
     req_rfile := [];
     req_read_raises := fun _ => None;
     req_form_file := inl (ExternalError "not a multipart request") |}.

(** A raw POST to a longer path that contains the route. *)
Definition versioned_request (data : bytes) : request :=
  {| req_path := "/api/transcribe/v2";
     req_content_type := Some "audio/webm";
     req_content_length := inr (Z.of_nat (List.length data));
     req_rfile := data;
     req_read_raises := fun _ => None;
     req_form_file := inl (ExternalError "not a multipart request") |}.

(** A host with a GPU on which the model cannot be built. *)
Definition broken_env : model_env :=
  {| model_name := "base.en";
     faster_whisper_importable := true;
     torch_cuda := inr (Some true);
     whisper_model_init := fun _ => InitRaises (ExternalError "CUDA out of memory") |}.

(** The sample world on a host whose temporary directory cannot take a
    new file. *)
Definition full_disk_world : world :=
  {| load_model := inr tt;
     av_open := av_open (sample_world []);
     named_temporary_file :=
       inl (ExternalError "[Errno 28] No space left on device");
     temp_file_left := None;
     model_transcribe := model_transcribe (sample_world []);
     os_unlink_ok := true |}.

(** The sample world on a host whose disk fills up during the write: the
    file is created, two bytes reach it, and the block raises. *)
Definition failing_write_world : world :=
  {| load_model := inr tt;
     av_open := av_open (sample_world []);
     named_temporary_file :=
       inl (ExternalError "[Errno 28] No space left on device");
     temp_file_left := Some ("/tmp/tmpq1w2e3.wav", b "RI");
     model_transcribe := model_transcribe (sample_world []);
     os_unlink_ok := true |}.

(** A raw POST to [/transcribe] that announces a length of -2. *)
Definition negative_length_request : request :=
  {| req_path := "/transcribe";
     req_content_type := Some "audio/wav";
     req_content_length := inr (-2);
     req_rfile := b "RIFF";
     req_read_raises := fun _ => None;
     req_form_file := inl (ExternalError "not a multipart request") |}.

(** * Properties *)

(** ** Bytes *)

Lemma bytes_eqb_eq (x y : bytes) : bytes_eqb x y = true <-> x = y.
Proof.
  revert y; induction x as [|c x IH]; intros [|d y]; simpl; split;
    try congruence; try reflexivity.
  - intros H. apply andb_prop in H as [Hc Hx].
    apply Byte.byte_dec_bl in Hc. apply IH in Hx. congruence.
  - intros H. injection H as -> ->.
    rewrite (Byte.byte_dec_lb eq_refl). simpl. now apply IH.
Qed.

Lemma bytes_eqb_spec (x y : bytes) : reflect (x = y) (bytes_eqb x y).
Proof. apply iff_reflect. symmetry. apply bytes_eqb_eq. Qed.

Lemma is_prefix_firstn (sig blob : bytes) :
  is_prefix sig blob = bytes_eqb (firstn (List.length sig) blob) sig.
Proof.
  revert blob; induction sig as [|c sig IH]; intros [|d blob]; simpl; trivial.
  rewrite IH. f_equal.
  destruct (Byte.eqb c d) eqn:E, (Byte.eqb d c) eqn:E'; trivial.
  - apply Byte.byte_dec_bl in E. subst. now rewrite (Byte.byte_dec_lb eq_refl) in E'.
  - apply Byte.byte_dec_bl in E'. subst. now rewrite (Byte.byte_dec_lb eq_refl) in E.
Qed.

(** ** FormatSniffer *)

Lemma detect_audio_format_table (blob : bytes) :
  detect_audio_format blob = classify_spec blob.
Proof.
  unfold classify_spec, signature_table, first_match, existsb.
  rewrite !is_prefix_firstn, !orb_false_r. reflexivity.
Qed.

Ltac sniff blob :=
  unfold detect_audio_format, slice_to;
  destruct blob as [|c0 [|c1 [|c2 [|c3 blob]]]]; cbn [firstn];
  repeat match goal with
         | |- context [bytes_eqb ?x ?y] =>
             let E := fresh "E" in destruct (bytes_eqb_spec x y) as [E|E];
             [vm_compute in E|vm_compute in E]
         end; cbn [orb].

(** C3. [detect_audio_format] answers from the leading bytes alone: "wav"
    exactly for a blob starting with 52 49 46 46, "webm" exactly for
    1A 45 DF A3, "mp3" exactly for a blob starting with "ID3" or FF FB,
    "ogg" exactly for "OggS" (whatever follows), "flac" exactly for "fLaC",
    and [None] exactly when none of these matches, in particular on a blob
    of zero bytes; the answer is that of the first matching row of the
    specification's table, and the function is total. *)
Theorem detect_audio_format_magic_bytes (blob rest : bytes) (n : nat) :
  (detect_audio_format blob = Some "wav"
     <-> firstn 4 blob = [Byte.x52; Byte.x49; Byte.x46; Byte.x46]) /\
  (detect_audio_format blob = Some "webm"
     <-> firstn 4 blob = [Byte.x1a; Byte.x45; Byte.xdf; Byte.xa3]) /\
  (detect_audio_format blob = Some "mp3"
     <-> firstn 3 blob = [Byte.x49; Byte.x44; Byte.x33]
         \/ firstn 2 blob = [Byte.xff; Byte.xfb]) /\
  (detect_audio_format blob = Some "ogg"
     <-> firstn 4 blob = [Byte.x4f; Byte.x67; Byte.x67; Byte.x53]) /\
  (detect_audio_format blob = Some "flac"
     <-> firstn 4 blob = [Byte.x66; Byte.x4c; Byte.x61; Byte.x43]) /\
  (detect_audio_format blob = None
     <-> firstn 4 blob <> [Byte.x52; Byte.x49; Byte.x46; Byte.x46]
         /\ firstn 4 blob <> [Byte.x1a; Byte.x45; Byte.xdf; Byte.xa3]
         /\ firstn 3 blob <> [Byte.x49; Byte.x44; Byte.x33]
         /\ firstn 2 blob <> [Byte.xff; Byte.xfb]
         /\ firstn 4 blob <> [Byte.x4f; Byte.x67; Byte.x67; Byte.x53]
         /\ firstn 4 blob <> [Byte.x66; Byte.x4c; Byte.x61; Byte.x43]) /\
  detect_audio_format ([Byte.x4f; Byte.x67; Byte.x67; Byte.x53] ++ rest)
    = Some "ogg" /\
  detect_audio_format (repeat Byte.x00 n) = None /\
  detect_audio_format blob = classify_spec blob /\
  (exists answer, detect_audio_format blob = answer).
Proof.
  repeat match goal with |- _ /\ _ => split end;
    try solve [sniff blob; intuition congruence].
  - destruct n as [|[|[|[|n]]]]; reflexivity.
  - apply detect_audio_format_table.
  - eexists; reflexivity.
Qed.

(** C9 (as stated). A blob shorter than four bytes is not always
    unknown: the three bytes "ID3" are sniffed as "mp3". *)
Lemma short_blob_not_always_unknown :
  ~ (forall blob : bytes,
       (List.length blob < 4)%nat -> detect_audio_format blob = None).
Proof.
  intros H. specialize (H (b "ID3")).
  assert (L : (List.length (b "ID3") < 4)%nat) by (vm_compute; lia).
  specialize (H L). vm_compute in H. discriminate H.
Qed.

(** C9 (amended). A blob shorter than four bytes is sniffed as "mp3" when
    it is "ID3" or starts with FF FB, and as unknown otherwise; a blob
    shorter than two bytes is always unknown. *)
Theorem detect_audio_format_short (blob : bytes) :
  (List.length blob < 4)%nat ->
  (blob = [Byte.x49; Byte.x44; Byte.x33] \/ firstn 2 blob = [Byte.xff; Byte.xfb]
     -> detect_audio_format blob = Some "mp3") /\
  (blob <> [Byte.x49; Byte.x44; Byte.x33] -> firstn 2 blob <> [Byte.xff; Byte.xfb]
     -> detect_audio_format blob = None) /\
  ((List.length blob < 2)%nat -> detect_audio_format blob = None).
Proof.
  intros L.
  repeat match goal with |- _ /\ _ => split end;
    sniff blob; cbn [List.length] in *; try lia; intuition congruence.
Qed.

Lemma detect_audio_format_short_witness :
  (List.length [Byte.xff; Byte.xfb; Byte.x90] < 4)%nat /\
  detect_audio_format [Byte.xff; Byte.xfb; Byte.x90] = Some "mp3".
Proof.
  split; [vm_compute; lia|].
  apply (detect_audio_format_short [Byte.xff; Byte.xfb; Byte.x90]).
  - vm_compute; lia.
  - right; reflexivity.
Defined.

(** ** WavEncoder *)

Lemma struct_pack_I_inr (v : Z) :
  0 <= v <= 4294967295 -> struct_pack_I v = inr (le_split 4 v).
Proof.
  intros H. unfold struct_pack_I.
  replace (0 <=? v) with true by (symmetry; apply Z.leb_le; lia).
  replace (v <=? 4294967295) with true by (symmetry; apply Z.leb_le; lia).
  reflexivity.
Qed.

Lemma struct_pack_I_inl (v : Z) :
  4294967295 < v -> exists e, struct_pack_I v = inl e.
Proof.
  intros H. unfold struct_pack_I.
  replace (v <=? 4294967295) with false by (symmetry; apply Z.leb_gt; lia).
  rewrite andb_false_r. eexists; reflexivity.
Qed.

Lemma le_split_2 (v : Z) : exists c0 c1, le_split 2 v = [c0; c1].
Proof. cbv [le_split]. repeat eexists. Qed.

Lemma length_tobytes (samples : list Z) :
  List.length (tobytes samples) = (2 * List.length samples)%nat.
Proof.
  unfold tobytes. induction samples as [|s samples IH]; trivial.
  cbn [flat_map]. rewrite length_app, length_le_split, IH. cbn [List.length]. lia.
Qed.

(** What [write_wav] returns when the RIFF size fits its field. *)
Lemma write_wav_inr (samples : list Z) :
  36 + 2 * Z.of_nat (List.length samples) <= 4294967295 ->
  write_wav samples =
  inr (b "RIFF" ++ le_split 4 (36 + 2 * Z.of_nat (List.length samples))
       ++ b "WAVEfmt " ++ le_split 4 16 ++ le_split 2 1 ++ le_split 2 1
       ++ le_split 4 16000 ++ le_split 4 32000 ++ le_split 2 2 ++ le_split 2 16
       ++ b "data" ++ le_split 4 (2 * Z.of_nat (List.length samples))
       ++ tobytes samples).
Proof.
  intros H. unfold write_wav.
  rewrite (Z.mul_comm _ 2).
  rewrite !struct_pack_I_inr by lia.
  cbn [bind]. unfold struct_pack_H. cbn [Z.leb Z.compare Pos.compare Pos.compare_cont andb bind ret].
  reflexivity.
Qed.

Lemma write_wav_inl (samples : list Z) :
  4294967295 < 36 + 2 * Z.of_nat (List.length samples) ->
  exists e, write_wav samples = inl e.
Proof.
  intros H. unfold write_wav. rewrite (Z.mul_comm _ 2).
  destruct (struct_pack_I_inl _ H) as [e ->]. exists e. reflexivity.
Qed.

Lemma signed16_mod (s : Z) : is_int16 s -> signed16 (s mod 65536) = s.
Proof.
  unfold is_int16, signed16. intros H.
  destruct (Z.ltb_spec (s mod 65536) 32768) as [L|L].
  - destruct (Z.le_gt_cases 0 s).
    + rewrite Z.mod_small in * by lia. lia.
    + replace s with (s + 1 * 65536 - 65536) in L by lia.
      replace (s + 1 * 65536 - 65536) with ((s + 65536) + (-1) * 65536) in L by lia.
      rewrite Z.mod_add, Z.mod_small in L by lia. lia.
  - destruct (Z.le_gt_cases 0 s).
    + rewrite Z.mod_small in * by lia. lia.
    + replace s with ((s + 65536) + (-1) * 65536) at 1 by lia.
      rewrite Z.mod_add, Z.mod_small by lia. lia.
Qed.

Lemma read_sample (samples : list Z) (i : nat) (s : Z) :
  nth_error samples i = Some s ->
  firstn 2 (skipn (2 * i) (tobytes samples)) = le_split 2 s.
Proof.
  revert samples; induction i as [|i IH]; intros [|s0 samples] H;
    try discriminate; unfold tobytes in *; cbn [flat_map].
  - injection H as ->. destruct (le_split_2 s) as (c0 & c1 & ->). reflexivity.
  - cbn [nth_error] in H. destruct (le_split_2 s0) as (c0 & c1 & ->).
    replace (2 * S i)%nat with (S (S (2 * i))) by lia. cbn [app skipn].
    now apply IH.
Qed.

Lemma unpack_tobytes (samples : list Z) :
  Forall is_int16 samples -> unpack_int16 (tobytes samples) = samples.
Proof.
  unfold tobytes. induction 1 as [|s samples Hs _ IH]; trivial.
  cbn [flat_map]. pose proof (le_combine_split 2 s) as C.
  destruct (le_split_2 s) as (c0 & c1 & E). rewrite E in *.
  cbn [app unpack_int16]. rewrite IH, C.
  change (2 ^ (Z.of_nat 2 * 8)) with 65536. now rewrite signed16_mod.
Qed.

(** C1 (as stated). The encoder does not produce a WAV for every sample
    sequence: on 2147483630 samples the RIFF size 36 + 2 * N is 2^32, which
    [struct.pack('<I', ...)] refuses, so [write_wav] raises. *)
Lemma write_wav_not_total :
  ~ (exists wav,
       write_wav (repeat 0 (Z.to_nat 2147483630)) = inr wav /\
       Z.of_nat (List.length wav) = 44 + 2 * 2147483630).
Proof.
  intros (wav & E & _).
  destruct (write_wav_inl (repeat 0 (Z.to_nat 2147483630))) as [e E'].
  - rewrite repeat_length, Z2Nat.id; lia.
  - rewrite E' in E. discriminate E.
Qed.

(** C1 (amended). For N int16 samples with 36 + 2 * N <= 2^32 - 1 the
    encoder returns exactly 44 + 2 * N bytes laid out as documented:
    "RIFF", the u32 36 + 2 * N, "WAVE", "fmt ", the u32 16, the u16 fields
    1 (PCM) and 1 (mono), the u32 sample rate 16000, the u32 byte rate
    32000, the u16 block align 2 and bits per sample 16, "data", the u32
    data size 2 * N, then the samples, each as a little-endian signed
    16-bit value. *)
Theorem write_wav_layout (samples_int16 : list Z) :
  Forall is_int16 samples_int16 ->
  36 + 2 * Z.of_nat (List.length samples_int16) <= 4294967295 ->
  exists wav,
    write_wav samples_int16 = inr wav /\
    Z.of_nat (List.length wav) = 44 + 2 * Z.of_nat (List.length samples_int16) /\
    firstn 4 wav = [Byte.x52; Byte.x49; Byte.x46; Byte.x46] /\
    read_le 4 4 wav = 36 + 2 * Z.of_nat (List.length samples_int16) /\
    firstn 8 (skipn 8 wav) = b "WAVEfmt " /\
    read_le 16 4 wav = 16 /\
    read_le 20 2 wav = 1 /\
    read_le 22 2 wav = 1 /\
    read_le 24 4 wav = 16000 /\
    read_le 28 4 wav = 32000 /\
    read_le 32 2 wav = 2 /\
    read_le 34 2 wav = 16 /\
    firstn 4 (skipn 36 wav) = b "data" /\
    read_le 40 4 wav = 2 * Z.of_nat (List.length samples_int16) /\
    skipn 44 wav = tobytes samples_int16 /\
    (forall (i : nat) (s : Z),
        nth_error samples_int16 i = Some s ->
        read_i16 (44 + 2 * i) wav = s /\
        nth_error wav (44 + 2 * i) = Some (byte.of_Z s) /\
        nth_error wav (44 + 2 * i + 1) = Some (byte.of_Z (Z.shiftr s 8))).
Proof.
  intros Hr Hn. rewrite (write_wav_inr _ Hn). eexists; split; [reflexivity|].
  set (n := Z.of_nat (List.length samples_int16)) in *.
  repeat match goal with |- _ /\ _ => split end; try reflexivity.
  - rewrite !length_app, length_tobytes, !length_le_split.
    cbn [b list_byte_of_string List.length map list_ascii_of_string]. lia.
  - change (read_le 4 4 _) with (le_combine (le_split 4 (36 + 2 * n))).
    rewrite le_combine_split. apply Z.mod_small. change (2 ^ _) with 4294967296. lia.
  - change (read_le 40 4 _) with (le_combine (le_split 4 (2 * n))).
    rewrite le_combine_split. apply Z.mod_small. change (2 ^ _) with 4294967296. lia.
  - intros i s H. split; [|split].
  + unfold read_i16, read_le.
    change (skipn (44 + 2 * i) _) with (skipn (2 * i) (tobytes samples_int16)).
    rewrite (read_sample _ _ _ H), le_combine_split.
    change (2 ^ _) with 65536. apply signed16_mod.
    rewrite Forall_forall in Hr. apply Hr. eapply nth_error_In; eassumption.
  + pose proof (read_sample _ _ _ H) as R.
    change (nth_error _ (44 + 2 * i)) with (nth_error (tobytes samples_int16) (2 * i)).
    rewrite <- (firstn_skipn (2 * i) (tobytes samples_int16)) at 1.
    assert (L : (2 * i + 2 <= List.length (tobytes samples_int16))%nat).
    { rewrite length_tobytes. assert (i < List.length samples_int16)%nat
        by (apply nth_error_Some; congruence). lia. }
    rewrite nth_error_app2 by (rewrite length_firstn; lia).
    rewrite length_firstn, Nat.min_l, Nat.sub_diag by lia.
    destruct (skipn (2 * i) (tobytes samples_int16)) as [|c0 [|c1 rest]];
      cbv [le_split] in R; cbn [firstn] in R; try discriminate R.
    injection R as -> ->. reflexivity.
  + pose proof (read_sample _ _ _ H) as R.
    change (nth_error _ (44 + 2 * i + 1))
      with (nth_error (tobytes samples_int16) (2 * i + 1)).
    rewrite <- (firstn_skipn (2 * i) (tobytes samples_int16)) at 1.
    assert (L : (2 * i + 2 <= List.length (tobytes samples_int16))%nat).
    { rewrite length_tobytes. assert (i < List.length samples_int16)%nat
        by (apply nth_error_Some; congruence). lia. }
    rewrite nth_error_app2 by (rewrite length_firstn; lia).
    rewrite length_firstn, Nat.min_l by lia.
    replace (2 * i + 1 - 2 * i)%nat with 1%nat by lia.
    destruct (skipn (2 * i) (tobytes samples_int16)) as [|c0 [|c1 rest]];
      cbv [le_split] in R; cbn [firstn] in R; try discriminate R.
    injection R as -> ->. reflexivity.
Qed.

Lemma write_wav_layout_witness :
  exists wav,
    write_wav [1; -2] = inr wav /\
    Z.of_nat (List.length wav) = 48 /\
    read_le 4 4 wav = 40 /\
    read_le 40 4 wav = 4 /\
    read_i16 46 wav = -2.
Proof.
  destruct (write_wav_layout [1; -2]) as (wav & E & L & _ & R & _ & _ & _ & _ & _
      & _ & _ & _ & _ & D & _ & S).
  - repeat constructor; unfold is_int16; lia.
  - vm_compute; discriminate.
  - exists wav. repeat split; trivial. apply (S 1%nat (-2)). reflexivity.
Defined.

(** ** Round trip through the canonical layout *)

(** C4 (as stated). Encoding then parsing does not recover every int16
    sequence: 2147483640 zero samples cannot be encoded at all, the RIFF
    size overflowing its 32-bit field. *)
Lemma wav_round_trip_not_total :
  ~ (exists wav,
       write_wav (repeat 0 (Z.to_nat 2147483640)) = inr wav /\
       parse_wav wav =
         Some {| wav_sample_rate := 16000; wav_channel_count := 1;
                 wav_samples := repeat 0 (Z.to_nat 2147483640) |}).
Proof.
  intros (wav & E & _).
  destruct (write_wav_inl (repeat 0 (Z.to_nat 2147483640))) as [e E'].
  - rewrite repeat_length, Z2Nat.id; lia.
  - rewrite E' in E. discriminate E.
Qed.

(** C4 (amended). For N mono int16 samples with 36 + 2 * N <= 2^32 - 1,
    encoding the sequence and parsing the bytes back gives the same
    sequence, the sample rate 16000 and the channel count 1. *)
Theorem wav_round_trip (samples_int16 : list Z) :
  Forall is_int16 samples_int16 ->
  36 + 2 * Z.of_nat (List.length samples_int16) <= 4294967295 ->
  exists wav,
    write_wav samples_int16 = inr wav /\
    parse_wav wav =
      Some {| wav_sample_rate := 16000; wav_channel_count := 1;
              wav_samples := samples_int16 |}.
Proof.
  intros Hr Hn. rewrite (write_wav_inr _ Hn). eexists; split; [reflexivity|].
  set (n := Z.of_nat (List.length samples_int16)) in *.
  unfold parse_wav.
  match goal with
  | |- (if ?c then _ else _) = _ => change c with true; cbv iota
  end.
  change (read_le 40 4 _) with (le_combine (le_split 4 (2 * n))).
  change (skipn 44 _) with (tobytes samples_int16).
  rewrite le_combine_split, Z.mod_small by (change (2 ^ _) with 4294967296; lia).
  rewrite length_tobytes.
  replace (Z.of_nat (2 * List.length samples_int16) <? 2 * n) with false
    by (symmetry; apply Z.ltb_ge; lia).
  rewrite firstn_all2 by (rewrite length_tobytes; lia).
  rewrite unpack_tobytes by assumption.
  reflexivity.
Qed.

Lemma wav_round_trip_witness :
  exists wav,
    write_wav [0; 32767; -32768] = inr wav /\
    parse_wav wav =
      Some {| wav_sample_rate := 16000; wav_channel_count := 1;
              wav_samples := [0; 32767; -32768] |}.
Proof.
  apply (wav_round_trip [0; 32767; -32768]).
  - repeat constructor; unfold is_int16; lia.
  - vm_compute; discriminate.
Defined.

(** ** Powers of two and scaled mantissas *)

Lemma bpow_pos (e : Z) : (0 < bpow e)%Q.
Proof. apply Qpower_0_lt. reflexivity. Qed.

Lemma bpow_add (a c : Z) : (bpow (a + c) == bpow a * bpow c)%Q.
Proof. apply Qpower_plus. discriminate. Qed.

Lemma bpow_Z (n : Z) : 0 <= n -> (bpow n == inject_Z (2 ^ n))%Q.
Proof. intros H. unfold bpow. now rewrite Zpower_Qpower. Qed.

Lemma bpow_le (a c : Z) : a <= c -> (bpow a <= bpow c)%Q.
Proof. intros H. apply Qpower_le_compat_l; [assumption|discriminate]. Qed.

Lemma bpow_lt_inv (a c : Z) : (bpow a < bpow c)%Q -> a < c.
Proof. intros H. apply Qpower_lt_compat_l_inv in H; [assumption|reflexivity]. Qed.

Lemma F2Q_0 (e : Z) : (F2Q 0 e == 0)%Q.
Proof. unfold F2Q. ring. Qed.

Lemma F2Q_le (m n e : Z) : m <= n -> (F2Q m e <= F2Q n e)%Q.
Proof.
  intros H. unfold F2Q. apply Qmult_le_compat_r.
  - now rewrite <- Zle_Qle.
  - apply Qlt_le_weak, bpow_pos.
Qed.

Lemma F2Q_lt (m n e : Z) : m < n -> (F2Q m e < F2Q n e)%Q.
Proof.
  intros H. unfold F2Q. apply Qmult_lt_compat_r.
  - apply bpow_pos.
  - now rewrite <- Zlt_Qlt.
Qed.

Lemma F2Q_lt_inv (m n e : Z) : (F2Q m e < F2Q n e)%Q -> m < n.
Proof.
  intros H. destruct (Z.lt_ge_cases m n) as [L|L]; trivial.
  apply (F2Q_le _ _ e) in L. apply Qle_not_lt in L. contradiction.
Qed.

(** Moving [k] binary places from the exponent into the mantissa. *)
Lemma F2Q_shift (m e k : Z) : 0 <= k -> (F2Q m (e + k) == F2Q (m * 2 ^ k) e)%Q.
Proof.
  intros H. unfold F2Q. rewrite bpow_add, (bpow_Z k H), inject_Z_mult. ring.
Qed.

Lemma F2Q_nonneg (m e : Z) : 0 <= m -> (0 <= F2Q m e)%Q.
Proof. intros H. rewrite <- (F2Q_0 e). now apply F2Q_le. Qed.

Lemma F2Q_pos (m e : Z) : 0 < m -> (0 < F2Q m e)%Q.
Proof. intros H. rewrite <- (F2Q_0 e). now apply F2Q_lt. Qed.

(** [2^(k+e)] seen as the mantissa [2^k] at exponent [e]. *)
Lemma F2Q_shift_bpow (e k : Z) : 0 <= k -> (bpow (e + k) == F2Q (2 ^ k) e)%Q.
Proof.
  intros H. unfold F2Q. rewrite bpow_add, (bpow_Z k H). ring.
Qed.

Lemma bpow_F2Q_1 (e : Z) : (bpow e == F2Q 1 e)%Q.
Proof. unfold F2Q. ring. Qed.

Lemma F2Q_lt_bpow (m e k : Z) :
  0 <= k -> m < 2 ^ k -> (F2Q m e < bpow (k + e))%Q.
Proof.
  intros Hk Hm. replace (k + e) with (e + k) by lia.
  rewrite F2Q_shift_bpow by lia. now apply F2Q_lt.
Qed.

(** ** Binary digits *)

Lemma digits2_pos_bounds (m : positive) :
  2 ^ (Z.pos (digits2_pos m) - 1) <= Z.pos m < 2 ^ Z.pos (digits2_pos m).
Proof.
  induction m as [m IH|m IH|]; cbn [digits2_pos]; [| |now vm_compute].
  all: rewrite Pos2Z.inj_succ;
    replace (Z.succ (Z.pos (digits2_pos m)) - 1)
      with (Z.succ (Z.pos (digits2_pos m) - 1)) by lia;
    rewrite !Z.pow_succ_r by lia; lia.
Qed.

Lemma Zdigits2_bounds (m : Z) :
  0 < m -> 2 ^ (Zdigits2 m - 1) <= m < 2 ^ Zdigits2 m.
Proof. destruct m; try lia. intros _. apply digits2_pos_bounds. Qed.

Lemma Zdigits2_pos (m : Z) : 0 < m -> 0 < Zdigits2 m.
Proof. destruct m; simpl; lia. Qed.

(** A lower bound on the digits from a lower bound on the number. *)
Lemma Zdigits2_ge (m k : Z) : 0 < m -> 2 ^ k <= m -> k + 1 <= Zdigits2 m.
Proof.
  intros Hm Hk. destruct (Z.le_gt_cases (k + 1) (Zdigits2 m)) as [L|L]; trivial.
  pose proof (Zdigits2_bounds m Hm) as [_ U].
  pose proof (Zdigits2_pos m Hm).
  assert (2 ^ Zdigits2 m <= 2 ^ k) by (apply Z.pow_le_mono_r; lia). lia.
Qed.

Lemma bpow_le_F2Q (m e : Z) :
  0 < m -> (bpow (Zdigits2 m - 1 + e) <= F2Q m e)%Q.
Proof.
  intros Hm. pose proof (Zdigits2_bounds m Hm) as [L _].
  pose proof (Zdigits2_pos m Hm).
  replace (Zdigits2 m - 1 + e) with (e + (Zdigits2 m - 1)) by lia.
  rewrite F2Q_shift_bpow by lia. now apply F2Q_le.
Qed.

(** ** Shifting a mantissa to the right *)

Lemma below_shr_1 (v : Q) (e : Z) (mrs : shr_record) :
  below v e mrs -> below v (e + 1) (shr_1 mrs).
Proof.
  destruct mrs as [m r s]. unfold below, shr_inexact. cbn [shr_m shr_r shr_s].
  intros (Hm & Hv & Hs).
  assert (E : forall p, (F2Q p (e + 1) == F2Q (p * 2) e)%Q)
    by (intros p; apply (F2Q_shift p e 1); lia).
  destruct m as [|[p|p|]|p]; try lia; cbn [shr_1 shr_m shr_r shr_s orb].
  - split; [lia|]. rewrite F2Q_0 in *. tauto.
  - split; [lia|]. rewrite E. split.
    + eapply Qle_trans; [apply (F2Q_le _ (Z.pos p~1)); lia|exact Hv].
    + intros _. eapply Qlt_le_trans; [apply (F2Q_lt _ (Z.pos p~1)); lia|exact Hv].
  - split; [lia|]. rewrite E.
    replace (Z.pos p * 2) with (Z.pos p~0) by lia. tauto.
  - split; [lia|]. rewrite F2Q_0. split.
    + eapply Qle_trans; [|exact Hv]. apply F2Q_nonneg; lia.
    + intros _. eapply Qlt_le_trans; [|exact Hv]. apply F2Q_pos; lia.
Qed.

Lemma below_iter_shr_1 (v : Q) (p : positive) :
  forall (e : Z) (mrs : shr_record),
    below v e mrs -> below v (e + Z.pos p) (iter_pos shr_1 p mrs).
Proof.
  induction p as [p IH|p IH|]; intros e mrs H; cbn [iter_pos].
  - replace (e + Z.pos p~1) with (e + 1 + Z.pos p + Z.pos p) by lia.
    apply IH, IH, below_shr_1, H.
  - replace (e + Z.pos p~0) with (e + Z.pos p + Z.pos p) by lia.
    apply IH, IH, H.
  - apply below_shr_1, H.
Qed.

Lemma below_shr (v : Q) (e n : Z) (mrs : shr_record) :
  below v e mrs ->
  below v (snd (shr mrs e n)) (fst (shr mrs e n)) /\
  ((n <= 0 /\ shr mrs e n = (mrs, e)) \/ (0 < n /\ snd (shr mrs e n) = e + n)).
Proof.
  intros H. destruct n as [|p|p]; cbn [shr fst snd].
  - split; [exact H|left; split; [lia|reflexivity]].
  - split; [now apply below_iter_shr_1|right; split; [lia|reflexivity]].
  - split; [exact H|left; split; [lia|reflexivity]].
Qed.

Lemma below_of_loc (v : Q) (m e : Z) (l : location) :
  0 <= m -> (F2Q m e <= v)%Q -> (l <> loc_Exact -> (F2Q m e < v)%Q) ->
  below v e (shr_record_of_loc m l).
Proof.
  intros Hm Hv Hl. unfold below, shr_inexact.
  destruct l as [|[| |]]; cbn [shr_record_of_loc shr_m shr_r shr_s orb];
    repeat split; trivial; try discriminate; intros _; apply Hl; discriminate.
Qed.

Lemma round_nearest_even_bounds (mrs : shr_record) :
  shr_m mrs <= round_nearest_even (shr_m mrs) (loc_of_shr_record mrs)
    <= shr_m mrs + (if shr_inexact mrs then 1 else 0).
Proof.
  destruct mrs as [m [|] [|]]; unfold shr_inexact;
    cbn [loc_of_shr_record round_nearest_even shr_m shr_r shr_s orb];
    try destruct (Z.even m); lia.
Qed.

Section Rounding.

Variables prec emax : Z.
Hypothesis prec_pos : 0 < prec.

Local Abbreviation fexp := (SpecFloat.fexp prec emax).
Local Abbreviation emin := (SpecFloat.emin prec emax).

Lemma fexp_mono (x y : Z) : x <= y -> fexp x <= fexp y.
Proof. unfold SpecFloat.fexp. lia. Qed.

Lemma shr_fexp_below (v : Q) (m e : Z) (l : location) :
  0 <= m -> (F2Q m e <= v)%Q -> (l <> loc_Exact -> (F2Q m e < v)%Q) ->
  let mrs' := fst (shr_fexp prec emax m e l) in
  let e' := snd (shr_fexp prec emax m e l) in
  below v e' mrs' /\
  ((e' = e /\ mrs' = shr_record_of_loc m l /\ fexp (Zdigits2 m + e) <= e)
   \/ (e' = fexp (Zdigits2 m + e) /\ e < e')).
Proof.
  intros Hm Hv Hl. unfold shr_fexp. cbv zeta.
  destruct (below_shr v e (fexp (Zdigits2 m + e) - e) _ (below_of_loc v m e l Hm Hv Hl))
    as (B & [(N & E)|(N & E)]).
  - split; [exact B|]. left. rewrite E. cbn [fst snd]. repeat split. lia.
  - split; [exact B|]. right. rewrite E. lia.
Qed.

(** Rounding a value that does not exceed a representable bound
    [mB * 2^eB] stays below that bound, and stays finite. *)
Lemma binary_round_aux_le (sx : bool) (mx ex : Z) (lx : location) (v : Q)
    (mB eB : Z) :
  0 <= mx -> (F2Q mx ex <= v)%Q -> (lx <> loc_Exact -> (F2Q mx ex < v)%Q) ->
  lx = loc_Exact \/ ex <= fexp (Zdigits2 mx + ex) ->
  0 < mB < 2 ^ prec -> emin <= eB -> eB + prec <= emax - prec + 1 ->
  (v <= F2Q mB eB)%Q ->
  match binary_round_aux prec emax sx mx ex lx with
  | S754_zero s => s = sx
  | S754_finite s m e => s = sx /\ (F2Q (Z.pos m) e <= F2Q mB eB)%Q
  | _ => False
  end.
Proof.
  intros Hm Hv Hl Hc HB HeB Hemax HvB.
  (* the value the first shift works on *)
  assert (exists v', (F2Q mx ex <= v')%Q /\ (lx <> loc_Exact -> (F2Q mx ex < v')%Q)
                     /\ (v' <= F2Q mB eB)%Q
                     /\ ((lx = loc_Exact /\ (v' == F2Q mx ex)%Q)
                         \/ ex <= fexp (Zdigits2 mx + ex)))
    as (v' & Hv' & Hl' & HvB' & Hc').
  { destruct Hc as [->|Hc].
    - exists (F2Q mx ex). split; [apply Qle_refl|]. split; [congruence|].
      split; [eapply Qle_trans; eassumption|]. left; split; reflexivity.
    - exists v. auto. }
  clear v Hv Hl HvB Hc.
  unfold binary_round_aux.
  pose proof (shr_fexp_below v' mx ex lx Hm Hv' Hl') as S1. cbv zeta in S1.
  destruct (shr_fexp prec emax mx ex lx) as [mrs' e']. cbn [fst snd] in S1.
  destruct S1 as ((Hm' & Hb' & Hs') & He').
  pose proof (round_nearest_even_bounds mrs') as Hr.
  set (m1 := round_nearest_even (shr_m mrs') (loc_of_shr_record mrs')) in *.
  assert (H1 : (F2Q m1 e' <= F2Q mB eB)%Q).
  { destruct (shr_inexact mrs') eqn:Hi.
    - specialize (Hs' eq_refl).
      assert (Ee : e' = fexp (Zdigits2 mx + ex) /\ (mx = 0 -> ex <= emin)).
      { destruct Hc' as [(-> & Hx)|Hc'].
        - destruct He' as [(_ & -> & _)|(He' & Hlt)]; [discriminate Hi|].
          split; [exact He'|]. intros ->. exfalso.
          rewrite Hx, F2Q_0 in Hs'. apply (Qlt_irrefl 0).
          eapply Qle_lt_trans; [|exact Hs']. now apply F2Q_nonneg.
        - split; [destruct He' as [(-> & _ & Hf)|(He' & _)]; lia|].
          intros ->. cbn [Zdigits2] in Hc'. unfold SpecFloat.fexp in Hc'. lia. }
      destruct Ee as (Ee & Hz).
      assert (LeB : e' <= eB).
      { rewrite Ee. destruct (Z.eq_dec mx 0) as [->|Hnz].
        - specialize (Hz eq_refl). cbn [Zdigits2]. unfold SpecFloat.fexp. lia.
        - assert (Hpos : 0 < mx) by lia.
          pose proof (Zdigits2_bounds mx Hpos) as [Dl _].
          pose proof (Zdigits2_pos mx Hpos) as Dp.
          assert (Lt : (bpow (Zdigits2 mx - 1 + ex) < bpow (prec + eB))%Q).
          { eapply Qle_lt_trans; [apply bpow_le_F2Q, Hpos|].
            eapply Qle_lt_trans; [exact Hv'|].
            eapply Qle_lt_trans; [exact HvB'|]. apply F2Q_lt_bpow; lia. }
          apply bpow_lt_inv in Lt. unfold SpecFloat.fexp. lia. }
      replace eB with (e' + (eB - e')) in HvB' |- * by lia.
      rewrite F2Q_shift in HvB' |- * by lia.
      apply F2Q_le.
      assert (shr_m mrs' < mB * 2 ^ (eB - e')).
      { apply (F2Q_lt_inv _ _ e'). eapply Qlt_le_trans; [exact Hs'|exact HvB']. }
      lia.
    - replace m1 with (shr_m mrs') by lia.
      eapply Qle_trans; [exact Hb'|exact HvB']. }
  assert (Hm1 : 0 <= m1) by lia.
  pose proof (shr_fexp_below (F2Q m1 e') m1 e' loc_Exact Hm1 (Qle_refl _)
                (fun H => False_ind _ (H eq_refl))) as S2. cbv zeta in S2.
  destruct (shr_fexp prec emax m1 e' loc_Exact) as [mrs'' e'']. cbn [fst snd] in S2.
  destruct S2 as ((Hm'' & Hb'' & _) & _).
  destruct (shr_m mrs'') as [|m|m] eqn:Em; [reflexivity| |lia].
  assert (Hfin : (F2Q (Z.pos m) e'' <= F2Q mB eB)%Q)
    by (eapply Qle_trans; [exact Hb''|exact H1]).
  destruct (Z.leb_spec e'' (emax - prec)) as [Le|Le]; [split; [reflexivity|exact Hfin]|].
  assert (Lt : (bpow e'' < bpow (prec + eB))%Q).
  { eapply Qle_lt_trans; [|eapply Qle_lt_trans; [exact Hfin|]].
    - rewrite (bpow_F2Q_1 e''). apply F2Q_le. lia.
    - apply F2Q_lt_bpow; lia. }
  apply bpow_lt_inv in Lt. lia.
Qed.

Lemma Zdigits2_unique (m k : Z) :
  0 < m -> 2 ^ (k - 1) <= m < 2 ^ k -> Zdigits2 m = k.
Proof.
  intros Hm [L U]. pose proof (Zdigits2_bounds m Hm) as [L' U'].
  pose proof (Zdigits2_pos m Hm) as P.
  assert (Hk : 0 < k).
  { destruct (Z.lt_ge_cases 0 k) as [H|H]; trivial.
    assert (2 ^ k <= 2 ^ 0) by (destruct (Z.eq_dec k 0) as [->|N];
      [lia|rewrite Z.pow_neg_r by lia; cbn; lia]).
    cbn in H0. lia. }
  destruct (Z.lt_trichotomy (Zdigits2 m) k) as [C|[C|C]]; trivial; exfalso.
  - assert (2 ^ Zdigits2 m <= 2 ^ (k - 1)) by (apply Z.pow_le_mono_r; lia). lia.
  - assert (2 ^ k <= 2 ^ (Zdigits2 m - 1)) by (apply Z.pow_le_mono_r; lia). lia.
Qed.

Lemma Zdigits2_pow2 (k : Z) : 0 <= k -> Zdigits2 (2 ^ k) = k + 1.
Proof.
  intros Hk. assert (0 < 2 ^ k) by (apply Z.pow_pos_nonneg; lia).
  apply Zdigits2_unique; trivial.
  replace (k + 1 - 1) with k by lia. rewrite Z.pow_add_r by lia. lia.
Qed.

(** Dropping [n] low bits drops [n] digits. *)
Lemma Zdigits2_div_pow2 (m n : Z) :
  0 < m -> 0 <= n ->
  (n < Zdigits2 m /\ 0 < m / 2 ^ n /\ Zdigits2 (m / 2 ^ n) = Zdigits2 m - n)
  \/ (Zdigits2 m <= n /\ m / 2 ^ n = 0).
Proof.
  intros Hm Hn. pose proof (Zdigits2_bounds m Hm) as [L U].
  pose proof (Zdigits2_pos m Hm) as P.
  assert (Pn : 0 < 2 ^ n) by (apply Z.pow_pos_nonneg; lia).
  destruct (Z.lt_ge_cases n (Zdigits2 m)) as [C|C].
  - left. split; [exact C|].
    assert (E1 : 2 ^ (Zdigits2 m - 1) = 2 ^ (Zdigits2 m - 1 - n) * 2 ^ n)
      by (rewrite <- Z.pow_add_r by lia; f_equal; lia).
    assert (E2 : 2 ^ Zdigits2 m = 2 ^ (Zdigits2 m - n) * 2 ^ n)
      by (rewrite <- Z.pow_add_r by lia; f_equal; lia).
    assert (Lq : 2 ^ (Zdigits2 m - 1 - n) <= m / 2 ^ n)
      by (apply Z.div_le_lower_bound; lia).
    assert (Uq : m / 2 ^ n < 2 ^ (Zdigits2 m - n))
      by (apply Z.div_lt_upper_bound; lia).
    assert (0 < 2 ^ (Zdigits2 m - 1 - n)) by (apply Z.pow_pos_nonneg; lia).
    split; [lia|]. apply Zdigits2_unique; [lia|].
    replace (Zdigits2 m - n - 1) with (Zdigits2 m - 1 - n) by lia. lia.
  - right. split; [exact C|]. apply Z.div_small.
    assert (2 ^ Zdigits2 m <= 2 ^ n) by (apply Z.pow_le_mono_r; lia). lia.
Qed.

(** Adding one keeps the number of digits unless it reaches a power of two. *)
Lemma Zdigits2_succ (m : Z) :
  0 < m -> Zdigits2 (m + 1) = Zdigits2 m \/ m + 1 = 2 ^ Zdigits2 m.
Proof.
  intros Hm. pose proof (Zdigits2_bounds m Hm) as [L U].
  destruct (Z.eq_dec (m + 1) (2 ^ Zdigits2 m)) as [E|N]; [now right|left].
  apply Zdigits2_unique; lia.
Qed.

(** *** What a right shift leaves of the mantissa *)

Lemma shr_m_shr_1 (mrs : shr_record) :
  0 <= shr_m mrs -> shr_m (shr_1 mrs) = shr_m mrs / 2.
Proof.
  destruct mrs as [m r s]. cbn [shr_m]. intros Hm.
  destruct m as [|[p|p|]|p]; cbn [shr_1 shr_m]; try lia; try reflexivity.
  - apply (Z.div_unique _ _ _ 1); lia.
  - apply (Z.div_unique _ _ _ 0); lia.
Qed.

Lemma shr_m_iter_shr_1 (p : positive) :
  forall mrs : shr_record,
    0 <= shr_m mrs ->
    shr_m (iter_pos shr_1 p mrs) = shr_m mrs / 2 ^ Z.pos p.
Proof.
  assert (Nn : forall (m k : Z), 0 <= m -> 0 <= k -> 0 <= m / 2 ^ k).
  { intros m k Hm Hk. apply Z.div_pos; [lia|]. apply Z.pow_pos_nonneg; lia. }
  assert (P2 : forall k : Z, 0 <= k -> 0 < 2 ^ k)
    by (intros; apply Z.pow_pos_nonneg; lia).
  induction p as [p IH|p IH|]; intros mrs Hm; cbn [iter_pos].
  - pose proof (shr_m_shr_1 mrs Hm) as E1.
    assert (H1 : 0 <= shr_m (shr_1 mrs)) by (rewrite E1; apply (Nn _ 1); lia).
    pose proof (IH _ H1) as E2.
    assert (H2 : 0 <= shr_m (iter_pos shr_1 p (shr_1 mrs)))
      by (rewrite E2; apply Nn; lia).
    rewrite (IH _ H2), E2, E1.
    rewrite !Z.div_div by (try apply P2; lia).
    f_equal. rewrite <- Z.pow_add_r by lia.
    change 2 with (2 ^ 1) at 1. rewrite <- Z.pow_add_r by lia. f_equal. lia.
  - pose proof (IH _ Hm) as E1.
    assert (H1 : 0 <= shr_m (iter_pos shr_1 p mrs)) by (rewrite E1; apply Nn; lia).
    rewrite (IH _ H1), E1.
    rewrite !Z.div_div by (try apply P2; lia).
    f_equal. rewrite <- Z.pow_add_r by lia. f_equal. lia.
  - rewrite shr_m_shr_1 by assumption. reflexivity.
Qed.

Lemma shr_m_shr (mrs : shr_record) (e n : Z) :
  0 <= shr_m mrs -> 0 <= n ->
  shr_m (fst (shr mrs e n)) = shr_m mrs / 2 ^ n /\ snd (shr mrs e n) = e + n.
Proof.
  intros Hm Hn. destruct n as [|p|p]; cbn [shr fst snd]; [| |lia].
  - rewrite Z.div_1_r. split; [reflexivity|lia].
  - split; [now apply shr_m_iter_shr_1|reflexivity].
Qed.

Lemma shr_m_of_loc (m : Z) (l : location) : shr_m (shr_record_of_loc m l) = m.
Proof. destruct l as [|[| |]]; reflexivity. Qed.

(** *** Rounding gives canonical floats *)

(** A mantissa and exponent the last step of [binary_round_aux] turns
    into a valid float. *)
Lemma finish_valid (sx : bool) (m e : Z) :
  m = 0 \/ (0 < m /\ fexp (Zdigits2 m + e) = e) ->
  valid_binary prec emax
    match m with
    | 0 => S754_zero sx
    | Z.pos p => if e <=? emax - prec then S754_finite sx p e else S754_infinity sx
    | Z.neg _ => S754_nan
    end = true.
Proof.
  intros [->|(Hm & C)]; [reflexivity|].
  destruct m as [|p|p]; try lia.
  destruct (Z.leb_spec e (emax - prec)) as [L|L]; [|reflexivity].
  cbn [valid_binary]. unfold bounded, canonical_mantissa.
  cbn [Zdigits2] in C. rewrite C, Z.eqb_refl. cbn [andb]. now apply Z.leb_le.
Qed.

(** The renormalisation of a rounded mantissa [m1] at exponent [e]: either
    nothing moves, or [m1] is a power of two that loses one zero bit. *)
Lemma shr_fexp_exact_canonical (m1 e : Z) :
  m1 = 0
  \/ (0 < m1 /\ fexp (Zdigits2 m1 + e) = e)
  \/ (exists k, 1 <= k /\ m1 = 2 ^ k /\ fexp (k + 1 + e) = e + 1) ->
  let m'' := shr_m (fst (shr_fexp prec emax m1 e loc_Exact)) in
  let e'' := snd (shr_fexp prec emax m1 e loc_Exact) in
  m'' = 0 \/ (0 < m'' /\ fexp (Zdigits2 m'' + e'') = e'').
Proof.
  intros K. unfold shr_fexp. cbv zeta.
  destruct K as [->|[(Hm & C)|(k & Hk & -> & C)]].
  - left. cbn [Zdigits2 shr_record_of_loc].
    destruct (fexp (0 + e) - e) as [|p|p]; cbn [shr fst shr_m]; trivial.
    rewrite shr_m_iter_shr_1 by (cbn; lia). reflexivity.
  - right. rewrite C, Z.sub_diag. cbn [shr fst snd shr_record_of_loc shr_m].
    split; assumption.
  - right. rewrite Zdigits2_pow2 by lia. rewrite C.
    replace (e + 1 - e) with 1 by lia.
    cbn [shr fst snd iter_pos]. rewrite shr_m_shr_1 by (cbn; lia).
    cbn [shr_record_of_loc shr_m].
    assert (E : 2 ^ k / 2 = 2 ^ (k - 1)).
    { replace k with (k - 1 + 1) at 1 by lia.
      rewrite Z.pow_add_r by lia. apply Z.div_mul. lia. }
    rewrite E. assert (0 < 2 ^ (k - 1)) by (apply Z.pow_pos_nonneg; lia).
    split; [assumption|]. rewrite Zdigits2_pow2 by lia.
    replace (k - 1 + 1 + (e + 1)) with (k + 1 + e) by lia. exact C.
Qed.

(** [binary_round_aux] returns a valid float when it is given an exponent
    that is not above the canonical one. *)
Lemma binary_round_aux_valid (sx : bool) (mx ex : Z) (lx : location) :
  0 <= mx -> ex <= fexp (Zdigits2 mx + ex) ->
  valid_binary prec emax (binary_round_aux prec emax sx mx ex lx) = true.
Proof.
  intros Hm He. unfold binary_round_aux.
  pose proof (shr_m_shr (shr_record_of_loc mx lx) ex
                (fexp (Zdigits2 mx + ex) - ex)) as S1.
  rewrite shr_m_of_loc in S1. specialize (S1 Hm ltac:(lia)).
  unfold shr_fexp at 1.
  destruct (shr (shr_record_of_loc mx lx) ex (fexp (Zdigits2 mx + ex) - ex))
    as [mrs' e']. cbn [fst snd] in S1. destruct S1 as [Em' Ee'].
  pose proof (round_nearest_even_bounds mrs') as Hr.
  set (m1 := round_nearest_even (shr_m mrs') (loc_of_shr_record mrs')) in *.
  assert (Hr' : shr_m mrs' <= m1 <= shr_m mrs' + 1)
    by (destruct (shr_inexact mrs'); lia).
  clear Hr.
  set (n := fexp (Zdigits2 mx + ex) - ex) in *.
  assert (Ee : e' = fexp (Zdigits2 mx + ex)) by lia.
  assert (K : m1 = 0
              \/ (0 < m1 /\ fexp (Zdigits2 m1 + e') = e')
              \/ (exists k, 1 <= k /\ m1 = 2 ^ k /\ fexp (k + 1 + e') = e' + 1)).
  { assert (Small : shr_m mrs' = 0 -> e' = emin ->
                    m1 = 0 \/ (0 < m1 /\ fexp (Zdigits2 m1 + e') = e')).
    { intros Z0 Emin. destruct (Z.eq_dec m1 0) as [->|N]; [now left|right].
      assert (m1 = 1) as -> by lia. split; [lia|].
      cbn [Zdigits2 digits2_pos]. rewrite Emin. unfold SpecFloat.fexp. lia. }
    destruct (Z.eq_dec mx 0) as [->|Nz].
    - cbn [Zdigits2] in *. rewrite Z.div_0_l in Em' by
        (apply Z.pow_nonzero; lia).
      destruct (Small Em') as [S|S]; [|now left|now right; left].
      unfold SpecFloat.fexp in *. lia.
    - assert (Hpos : 0 < mx) by lia.
      destruct (Zdigits2_div_pow2 mx n Hpos ltac:(lia)) as [(Ln & Pq & Dq)|(Ln & Zq)].
      + rewrite <- Em' in Pq, Dq.
        assert (C : fexp (Zdigits2 (shr_m mrs') + e') = e').
        { rewrite Dq. replace (Zdigits2 mx - n + e') with (Zdigits2 mx + ex) by lia.
          now symmetry. }
        destruct (Z.eq_dec m1 (shr_m mrs')) as [->|N]; [right; left; now split|].
        assert (E1 : m1 = shr_m mrs' + 1) by lia.
        destruct (Zdigits2_succ (shr_m mrs') Pq) as [Same|Pow].
        * right; left. split; [lia|]. rewrite E1, Same. exact C.
        * pose proof (Zdigits2_pos _ Pq) as Pd.
          destruct (Z.eq_dec (fexp (Zdigits2 (shr_m mrs') + 1 + e')) e') as [F|F].
          -- right; left. split; [lia|]. rewrite E1, Pow.
             rewrite Zdigits2_pow2 by lia. exact F.
          -- right; right. exists (Zdigits2 (shr_m mrs')).
             split; [lia|]. split; [lia|].
             unfold SpecFloat.fexp in *. lia.
      + rewrite <- Em' in Zq.
        destruct (Small Zq) as [S|S]; [|now left|now right; left].
        unfold SpecFloat.fexp in *. lia. }
  pose proof (shr_fexp_exact_canonical m1 e' K) as F. cbv zeta in F.
  destruct (shr_fexp prec emax m1 e' loc_Exact) as [mrs'' e''].
  cbn [fst snd] in F. now apply finish_valid.
Qed.

Lemma digits2_pos_iter_xO (m d : positive) :
  Z.pos (digits2_pos (Pos.iter xO m d)) = Z.pos (digits2_pos m) + Z.pos d.
Proof.
  induction d as [|d IH] using Pos.peano_ind.
  - cbn [Pos.iter digits2_pos]. lia.
  - rewrite Pos.iter_succ. cbn [digits2_pos]. lia.
Qed.

(** [binary_round], the rounding of [m * 2^e] to the format, returns a
    valid float. *)
Lemma binary_round_valid (s : bool) (m : positive) (e : Z) :
  valid_binary prec emax (binary_round prec emax s m e) = true.
Proof.
  unfold binary_round, shl_align.
  destruct (fexp (Z.pos (digits2_pos m) + e) - e) as [|d|d] eqn:E.
  - apply binary_round_aux_valid; [lia|]. cbn [Zdigits2]. lia.
  - apply binary_round_aux_valid; [lia|]. cbn [Zdigits2]. lia.
  - apply binary_round_aux_valid; [lia|]. cbn [Zdigits2].
    rewrite digits2_pos_iter_xO.
    replace (Z.pos (digits2_pos m) + Z.pos d + fexp (Z.pos (digits2_pos m) + e))
      with (Z.pos (digits2_pos m) + e) by lia.
    lia.
Qed.

(** *** Division *)

Lemma new_location_exact (nb k : Z) :
  new_location nb k <> loc_Exact -> k <> 0.
Proof.
  unfold new_location, new_location_even, new_location_odd.
  intros H ->. destruct (Z.even nb); cbn in H; now apply H.
Qed.

(** The quotient mantissa, exponent and location [SFdiv_core_binary]
    computes approximate the exact quotient [v] from below, at an exponent
    the rounding step can only raise. *)
Lemma SFdiv_core_binary_below (mx my : positive) (ex ey : Z) (v : Q) :
  (v * F2Q (Z.pos my) ey == F2Q (Z.pos mx) ex)%Q ->
  let '(q, e', l) := SFdiv_core_binary prec emax (Z.pos mx) ex (Z.pos my) ey in
  0 <= q /\ (F2Q q e' <= v)%Q /\ (l <> loc_Exact -> (F2Q q e' < v)%Q)
  /\ e' <= fexp (Zdigits2 q + e').
Proof.
  intros Hv. unfold SFdiv_core_binary.
  set (d1 := Zdigits2 (Z.pos mx)). set (d2 := Zdigits2 (Z.pos my)).
  set (e' := Z.min (fexp (d1 + ex - (d2 + ey))) (ex - ey)).
  set (s := ex - ey - e').
  assert (Hs : 0 <= s) by (unfold s, e'; lia).
  set (m' := match s with Z.pos _ => Z.shiftl (Z.pos mx) s | 0 => Z.pos mx | Z.neg _ => 0 end).
  assert (Em : m' = Z.pos mx * 2 ^ s).
  { unfold m'. destruct s as [|p|p]; [lia| |lia].
    apply Z.shiftl_mul_pow2. lia. }
  clearbody m'. cbv zeta.
  pose proof (Z_div_mod m' (Z.pos my) eq_refl) as D.
  destruct (Z.div_eucl m' (Z.pos my)) as [q r]. destruct D as (D & Hr).
  pose proof (Zdigits2_bounds (Z.pos mx) eq_refl) as [L1 U1].
  pose proof (Zdigits2_bounds (Z.pos my) eq_refl) as [L2 U2].
  pose proof (Zdigits2_pos (Z.pos mx) eq_refl) as P1.
  pose proof (Zdigits2_pos (Z.pos my) eq_refl) as P2.
  fold d1 in L1, U1, P1. fold d2 in L2, U2, P2.
  assert (P2s : 0 < 2 ^ s) by (apply Z.pow_pos_nonneg; lia).
  assert (Hq : 0 <= q) by nia.
  (* v * my = m' * 2^e' *)
  assert (Hv' : (v * inject_Z (Z.pos my) == F2Q m' e')%Q).
  { apply (Qmult_inj_r _ _ (bpow ey)); [apply Qnot_eq_sym, Qlt_not_eq, bpow_pos|].
    rewrite <- Qmult_assoc. change (inject_Z (Z.pos my) * bpow ey)%Q with (F2Q (Z.pos my) ey).
    rewrite Hv, Em. rewrite <- F2Q_shift by lia. unfold F2Q.
    rewrite <- Qmult_assoc, <- bpow_add.
    replace (e' + s + ey) with ex by (unfold s; lia). reflexivity. }
  assert (Hmy : (0 < inject_Z (Z.pos my))%Q) by reflexivity.
  assert (Eq' : (F2Q q e' * inject_Z (Z.pos my) == F2Q (Z.pos my * q) e')%Q)
    by (unfold F2Q; rewrite inject_Z_mult; ring).
  split; [exact Hq|]. split; [|split].
  - apply (Qmult_le_r _ _ _ Hmy). rewrite Hv', Eq'. apply F2Q_le. lia.
  - intros Hl. apply new_location_exact in Hl.
    apply (Qmult_lt_r _ _ _ Hmy). rewrite Hv', Eq'. apply F2Q_lt. lia.
  - destruct (Z.eq_dec q 0) as [->|Hq0].
    + assert (Z.pos mx * 2 ^ s < Z.pos my) by lia.
      assert (2 ^ (d1 - 1) * 2 ^ s < 2 ^ d2) by nia.
      rewrite <- Z.pow_add_r in H0 by lia.
      apply Z.pow_lt_mono_r_iff in H0; [|lia|lia].
      cbn [Zdigits2]. unfold e' in *. unfold SpecFloat.fexp in *. unfold s in *. lia.
    + assert (Hd : d1 + s - d2 <= Zdigits2 q).
      { assert (0 < q) by lia. pose proof (Zdigits2_pos q H).
        destruct (Z.le_gt_cases (d1 + s - d2) 1) as [C|C]; [lia|].
        assert (2 ^ (d1 - 1 + s - d2) <= q).
        { assert (EK : 2 ^ (d1 - 1 + s - d2) * 2 ^ d2 = 2 ^ (d1 - 1) * 2 ^ s).
          { rewrite <- !Z.pow_add_r by lia. f_equal. lia. }
          assert (0 < 2 ^ (d1 - 1 + s - d2)) by (apply Z.pow_pos_nonneg; lia).
          nia. }
        pose proof (Zdigits2_ge q _ H H1). lia. }
      apply Z.le_trans with (fexp (d1 + ex - (d2 + ey))); [unfold e'; lia|].
      apply fexp_mono. unfold s in Hd. lia.
Qed.

(** *** Comparison of canonical floats *)

Lemma canonical_bounds (m : positive) (e : Z) :
  canonical_mantissa prec emax m e = true ->
  Z.pos m < 2 ^ prec /\ emin <= e /\ (emin < e -> 2 ^ (prec - 1) <= Z.pos m).
Proof.
  unfold canonical_mantissa. intros H. apply Z.eqb_eq in H.
  pose proof (digits2_pos_bounds m) as [L U].
  unfold SpecFloat.fexp in H.
  assert (D : Z.pos (digits2_pos m) <= prec) by lia.
  split; [|split].
  - eapply Z.lt_le_trans; [exact U|]. apply Z.pow_le_mono_r; lia.
  - lia.
  - intros He. assert (Z.pos (digits2_pos m) = prec) as <- by lia. exact L.
Qed.

Lemma canonical_lt (m1 m2 : positive) (e1 e2 : Z) :
  canonical_mantissa prec emax m1 e1 = true ->
  canonical_mantissa prec emax m2 e2 = true ->
  e1 < e2 -> (F2Q (Z.pos m1) e1 < F2Q (Z.pos m2) e2)%Q.
Proof.
  intros C1 C2 He.
  destruct (canonical_bounds _ _ C1) as (U1 & E1 & _).
  destruct (canonical_bounds _ _ C2) as (_ & _ & L2).
  specialize (L2 ltac:(lia)).
  eapply Qlt_le_trans; [apply (F2Q_lt_bpow _ _ prec); [lia|exact U1]|].
  eapply Qle_trans; [apply (bpow_le _ (e2 + (prec - 1))); lia|].
  rewrite F2Q_shift_bpow by lia. now apply F2Q_le.
Qed.

Lemma SFcompare_magnitude (x y : spec_float) :
  magnitude prec emax x -> magnitude prec emax y ->
  match SFcompare x y with
  | Some Lt => (SFmag x < SFmag y)%Q
  | Some Eq => x = y
  | Some Gt => (SFmag y < SFmag x)%Q
  | None => False
  end.
Proof.
  destruct x as [sx|sx| |sx mx ex], y as [sy|sy| |sy my ey]; cbn [magnitude];
    try contradiction; intros Hx Hy.
  - cbn. congruence.
  - destruct Hy as (-> & _). cbn. apply F2Q_pos; lia.
  - destruct Hx as (-> & _). cbn. apply F2Q_pos; lia.
  - destruct Hx as (-> & Bx), Hy as (-> & By').
    unfold bounded in Bx, By'. apply andb_prop in Bx as [Cx _], By' as [Cy _].
    cbn [SFcompare SFmag].
    destruct (Z.compare_spec ex ey) as [->|L|L].
    + change (Pos.compare_cont Eq mx my) with (Pos.compare mx my).
      destruct (Pos.compare_spec mx my) as [->|M|M]; trivial; apply F2Q_lt; lia.
    + now apply canonical_lt.
    + now apply canonical_lt.
Qed.

(** *** Bounds on quotients and products *)

Hypothesis emin_nonpos : emin <= 0.
Hypothesis emax_room : prec <= emax - prec + 1.

Lemma one_lt_pow_prec : 1 < 2 ^ prec.
Proof. apply Z.pow_gt_1; lia. Qed.

(** A finite float divided by a finite float of at least its magnitude
    gives a finite float of magnitude at most one. *)
Lemma SFdiv_le_1 (x : spec_float) (sy : bool) (my : positive) (ey : Z) :
  f32_finite x = true ->
  (SFmag x <= F2Q (Z.pos my) ey)%Q ->
  f32_finite (SFdiv prec emax x (S754_finite sy my ey)) = true /\
  (SFmag (SFdiv prec emax x (S754_finite sy my ey)) <= 1)%Q.
Proof.
  intros Hf Hx. destruct x as [sx|sx| |sx mx ex]; try discriminate Hf.
  - cbn. split; [reflexivity|discriminate].
  - cbn [SFdiv SFmag] in *.
    assert (Py : (0 < F2Q (Z.pos my) ey)%Q) by (apply F2Q_pos; lia).
    set (v := (F2Q (Z.pos mx) ex / F2Q (Z.pos my) ey)%Q).
    assert (Hv : (v * F2Q (Z.pos my) ey == F2Q (Z.pos mx) ex)%Q).
    { unfold v. field. apply Qnot_eq_sym, Qlt_not_eq, Py. }
    assert (Hv1 : (v <= F2Q 1 0)%Q).
    { apply (Qmult_le_r _ _ _ Py). rewrite Hv. unfold F2Q at 2.
      change (bpow 0) with 1%Q. rewrite !Qmult_1_l. exact Hx. }
    pose proof (SFdiv_core_binary_below mx my ex ey v Hv) as C.
    destruct (SFdiv_core_binary prec emax (Z.pos mx) ex (Z.pos my) ey) as [[q e'] l].
    destruct C as (Hq & Hle & Hlt & He).
    pose proof (binary_round_aux_le (xorb sx sy) q e' l v 1 0 Hq Hle Hlt
                  (or_intror He)) as R.
    pose proof one_lt_pow_prec.
    specialize (R ltac:(lia) emin_nonpos ltac:(lia) Hv1).
    destruct (binary_round_aux prec emax (xorb sx sy) q e' l);
      try contradiction; cbn [f32_finite SFmag].
    + split; [reflexivity|discriminate].
    + split; [reflexivity|]. destruct R as [_ R].
      unfold F2Q at 2 in R. change (bpow 0) with 1%Q in R.
      now rewrite Qmult_1_l in R.
Qed.

(** Scaling a finite float of magnitude at most one by a positive
    constant [c] gives a finite float of magnitude at most [c]. *)
Lemma SFmul_le (x : spec_float) (sc : bool) (mc : positive) (ec : Z) :
  f32_finite x = true -> (SFmag x <= 1)%Q ->
  Z.pos mc < 2 ^ prec -> emin <= ec -> ec + prec <= emax - prec + 1 ->
  f32_finite (SFmul prec emax x (S754_finite sc mc ec)) = true /\
  (SFmag (SFmul prec emax x (S754_finite sc mc ec)) <= F2Q (Z.pos mc) ec)%Q.
Proof.
  intros Hf Hx Hmc Hec Hroom. destruct x as [sx|sx| |sx mx ex]; try discriminate Hf.
  - cbn. split; [reflexivity|]. apply F2Q_nonneg; lia.
  - cbn [SFmul SFmag] in *.
    assert (E : (F2Q (Z.pos (mx * mc)) (ex + ec)
                 == F2Q (Z.pos mx) ex * F2Q (Z.pos mc) ec)%Q).
    { unfold F2Q. rewrite Pos2Z.inj_mul, inject_Z_mult, bpow_add. ring. }
    assert (Pc : (0 <= F2Q (Z.pos mc) ec)%Q) by (apply F2Q_nonneg; lia).
    assert (Hv : (F2Q (Z.pos (mx * mc)) (ex + ec) <= F2Q (Z.pos mc) ec)%Q).
    { rewrite E. rewrite <- (Qmult_1_l (F2Q (Z.pos mc) ec)) at 2.
      now apply Qmult_le_compat_r. }
    pose proof (binary_round_aux_le (xorb sx sc) (Z.pos (mx * mc)) (ex + ec)
                  loc_Exact _ (Z.pos mc) ec ltac:(lia) (Qle_refl _)
                  (fun H => False_ind _ (H eq_refl)) (or_introl eq_refl)
                  ltac:(lia) Hec Hroom Hv) as R.
    destruct (binary_round_aux prec emax (xorb sx sc) (Z.pos (mx * mc)) (ex + ec) loc_Exact);
      try contradiction; cbn [f32_finite SFmag].
    + split; [reflexivity|exact Pc].
    + split; [reflexivity|apply R].
Qed.

End Rounding.

(** ** Conversion to an integer *)

Lemma inject_Z_F2Q (z : Z) : (inject_Z z == F2Q z 0)%Q.
Proof. unfold F2Q. change (bpow 0) with 1%Q. ring. Qed.

(** [Z.shiftl m e] is the integer part of [m * 2^e]. *)
Lemma shiftl_floor (m : positive) (e : Z) :
  0 <= Z.shiftl (Z.pos m) e /\
  (inject_Z (Z.shiftl (Z.pos m) e) <= F2Q (Z.pos m) e)%Q /\
  (F2Q (Z.pos m) e < inject_Z (Z.shiftl (Z.pos m) e + 1))%Q.
Proof.
  destruct (Z.le_gt_cases 0 e) as [He|He].
  - rewrite Z.shiftl_mul_pow2 by lia.
    assert (0 < 2 ^ e) by (apply Z.pow_pos_nonneg; lia).
    pose proof (F2Q_shift (Z.pos m) 0 e He) as E. rewrite Z.add_0_l in E.
    rewrite !inject_Z_F2Q, E.
    split; [nia|]. split; [apply Qle_refl|]. apply F2Q_lt. lia.
  - rewrite Z.shiftl_div_pow2 by lia.
    assert (P : 0 < 2 ^ (- e)) by (apply Z.pow_pos_nonneg; lia).
    pose proof (Z.div_mod (Z.pos m) (2 ^ (- e)) ltac:(lia)) as D.
    pose proof (Z.mod_pos_bound (Z.pos m) (2 ^ (- e)) P) as Hr.
    set (t := Z.pos m / 2 ^ (- e)) in *.
    assert (0 <= t) by (apply Z.div_pos; lia).
    assert (E : forall z, (F2Q z 0 == F2Q (z * 2 ^ (- e)) e)%Q).
    { intros z. rewrite <- F2Q_shift by lia. now rewrite Z.add_opp_diag_r. }
    rewrite !inject_Z_F2Q, !E.
    split; [lia|]. split; [apply F2Q_le; nia|apply F2Q_lt; nia].
Qed.

Lemma Qfloor_unique (v : Q) (z : Z) :
  (inject_Z z <= v)%Q -> (v < inject_Z (z + 1))%Q -> Qfloor v = z.
Proof.
  intros L U.
  pose proof (Qfloor_le v) as L'. pose proof (Qlt_floor v) as U'.
  assert (z < Qfloor v + 1)
    by (rewrite Zlt_Qlt; eapply Qle_lt_trans; eassumption).
  assert (Qfloor v < z + 1)
    by (rewrite Zlt_Qlt; eapply Qle_lt_trans; eassumption).
  lia.
Qed.

(** [f32_trunc] drops the fraction of the value, toward zero. *)
Lemma f32_trunc_Qtrunc (x : float32) :
  f32_finite x = true -> f32_trunc x = Some (Qtrunc (SF2Q x)).
Proof.
  destruct x as [s|s| |s m e]; try discriminate; intros _; [reflexivity|].
  cbn [f32_trunc SF2Q]. f_equal.
  destruct (shiftl_floor m e) as (P & L & U).
  assert (Pv : (0 < F2Q (Z.pos m) e)%Q) by (apply F2Q_pos; lia).
  unfold Qtrunc. destruct s.
  - destruct (Qle_bool 0 (- F2Q (Z.pos m) e)) eqn:B.
    + apply Qle_bool_iff in B. exfalso. apply (Qlt_irrefl 0).
      eapply Qlt_le_trans; [exact Pv|].
      apply (Qplus_le_r _ _ (- F2Q (Z.pos m) e)). ring_simplify.
      ring_simplify in B. exact B.
    + unfold Qceiling. f_equal. symmetry.
      rewrite (Qfloor_comp _ (F2Q (Z.pos m) e)) by ring.
      now apply Qfloor_unique.
  - destruct (Qle_bool 0 (F2Q (Z.pos m) e)) eqn:B.
    + symmetry. now apply Qfloor_unique.
    + exfalso. apply Qlt_le_weak, Qle_bool_iff in Pv. congruence.
Qed.

Lemma f32_trunc_bound (x : float32) (n : Z) :
  f32_finite x = true -> (SFmag x <= inject_Z n)%Q ->
  exists z, f32_trunc x = Some z /\ - n <= z <= n.
Proof.
  destruct x as [s|s| |s m e]; try discriminate; intros _ H; cbn [SFmag] in H.
  - exists 0. split; [reflexivity|].
    change 0%Q with (inject_Z 0) in H. rewrite <- Zle_Qle in H. lia.
  - cbn [f32_trunc]. eexists; split; [reflexivity|].
    destruct (shiftl_floor m e) as (P & L & _).
    assert (Z.shiftl (Z.pos m) e <= n)
      by (rewrite Zle_Qle; eapply Qle_trans; eassumption).
    destruct s; lia.
Qed.

Section Quantize.

Variable cast_invalid : float32 -> Z.

Lemma astype_int16_finite (x : float32) :
  f32_finite x = true -> (SFmag x <= 32767)%Q ->
  astype_int16 cast_invalid x = Qtrunc (SF2Q x) /\
  -32767 <= astype_int16 cast_invalid x <= 32767.
Proof.
  intros Hf Hm. unfold astype_int16.
  destruct (f32_trunc_bound x 32767 Hf Hm) as (z & E & Hz).
  rewrite (f32_trunc_Qtrunc x Hf) in E. injection E as E.
  rewrite (f32_trunc_Qtrunc x Hf), E.
  replace (-32768 <=? z) with true by (symmetry; apply Z.leb_le; lia).
  replace (z <=? 32767) with true by (symmetry; apply Z.leb_le; lia).
  cbn [andb]. split; [reflexivity|lia].
Qed.

End Quantize.

(** ** Normalizer *)

Lemma prec32_pos : 0 < prec32.
Proof. reflexivity. Qed.

Lemma emin32_nonpos : emin prec32 emax32 <= 0.
Proof. discriminate. Qed.

Lemma emax32_room : prec32 <= emax32 - prec32 + 1.
Proof. discriminate. Qed.

Lemma f32_of_int_32767 : f32_of_int 32767 = S754_finite false 16776704 (-9).
Proof. reflexivity. Qed.

Lemma SFmag_32767 : (SFmag (f32_of_int 32767) == 32767)%Q.
Proof. reflexivity. Qed.

Lemma f32_div_le_1 (x : float32) (sy : bool) (my : positive) (ey : Z) :
  f32_finite x = true ->
  (SFmag x <= F2Q (Z.pos my) ey)%Q ->
  f32_finite (f32_div x (S754_finite sy my ey)) = true /\
  (SFmag (f32_div x (S754_finite sy my ey)) <= 1)%Q.
Proof. apply (SFdiv_le_1 prec32 emax32 prec32_pos emin32_nonpos emax32_room). Qed.

Lemma f32_mul_32767_le (x : float32) :
  f32_finite x = true -> (SFmag x <= 1)%Q ->
  f32_finite (f32_mul x (f32_of_int 32767)) = true /\
  (SFmag (f32_mul x (f32_of_int 32767)) <= 32767)%Q.
Proof.
  intros Hf Hx. rewrite <- SFmag_32767. rewrite f32_of_int_32767.
  apply (SFmul_le prec32 emax32 prec32_pos); trivial; try discriminate.
  reflexivity.
Qed.

(** A finite non-zero float divided by a float of the same magnitude is
    exactly one, up to the sign. *)
Lemma f32_div_self (s s' : bool) (m : positive) (e : Z) :
  f32_div (S754_finite s m e) (S754_finite s' m e)
  = S754_finite (xorb s s') 8388608 (-23).
Proof.
  unfold f32_div. cbn [SFdiv]. unfold SFdiv_core_binary.
  replace (Zdigits2 (Z.pos m) + e - (Zdigits2 (Z.pos m) + e)) with 0 by lia.
  rewrite Z.sub_diag.
  change (Z.min (fexp prec32 emax32 0) 0) with (-24).
  change (0 - -24) with 24.
  rewrite Z.shiftl_mul_pow2 by lia.
  assert (D : Z.div_eucl (Z.pos m * 2 ^ 24) (Z.pos m) = (2 ^ 24, 0)).
  { pose proof (Z_div_mod (Z.pos m * 2 ^ 24) (Z.pos m) eq_refl) as H.
    destruct (Z.div_eucl (Z.pos m * 2 ^ 24) (Z.pos m)) as [q r].
    destruct H as [H R]. assert (q = 2 ^ 24) by nia. subst q. f_equal. lia. }
  rewrite D. unfold new_location.
  destruct (Z.even (Z.pos m)); reflexivity.
Qed.

Lemma f32_mul_one_32767 (s : bool) :
  f32_mul (S754_finite s 8388608 (-23)) (f32_of_int 32767)
  = S754_finite s 16776704 (-9).
Proof. destruct s; reflexivity. Qed.

(** A Python float that already is a finite float32 datum is stored
    unchanged. *)
Lemma f32_of_float_id (x : py_float) :
  f32_finite x = true -> f32_valid x = true -> f32_of_float x = x.
Proof.
  destruct x as [s|s| |s m e]; try discriminate; trivial. intros _ V.
  unfold f32_valid, valid_binary, bounded, canonical_mantissa in V.
  apply andb_prop in V as [C B]. apply Z.eqb_eq in C.
  unfold f32_of_float, binary_round. rewrite C.
  unfold shl_align. rewrite Z.sub_diag.
  unfold binary_round_aux, shr_fexp. cbn [Zdigits2]. rewrite C, Z.sub_diag.
  cbn [shr shr_record_of_loc shr_m loc_of_shr_record round_nearest_even Zdigits2].
  rewrite C, Z.sub_diag. cbn [shr shr_m]. now rewrite B.
Qed.

(** Every cell of the array is float32 data. *)
Lemma f32_of_float_valid (x : py_float) : f32_valid (f32_of_float x) = true.
Proof.
  destruct x as [s|s| |s m e]; try reflexivity.
  apply (binary_round_valid prec32 emax32 prec32_pos).
Qed.

Lemma finite_cells_np_array (samples : list py_float) :
  finite_samples (np_array_float32 samples) ->
  finite_cells (np_array_float32 samples).
Proof.
  unfold finite_samples, finite_cells, np_array_float32.
  rewrite !Forall_map. apply Forall_impl. intros x Fx.
  split; [exact Fx|apply f32_of_float_valid].
Qed.

Lemma np_array_float32_id (samples : list py_float) :
  finite_cells samples -> np_array_float32 samples = samples.
Proof.
  unfold np_array_float32. induction 1 as [|x l (Fx & Vx) _ IH]; [reflexivity|].
  cbn [map]. now rewrite IH, f32_of_float_id.
Qed.

Lemma magnitude_SFabs (x : float32) :
  f32_finite x = true -> f32_valid x = true ->
  magnitude prec32 emax32 (SFabs x) /\ SFmag (SFabs x) = SFmag x.
Proof.
  destruct x as [s|s| |s m e]; try discriminate; cbn; auto.
Qed.

Lemma np_maximum_magnitude (x y : float32) :
  magnitude prec32 emax32 x -> magnitude prec32 emax32 y ->
  (np_maximum x y = x \/ np_maximum x y = y) /\
  (SFmag x <= SFmag (np_maximum x y))%Q /\
  (SFmag y <= SFmag (np_maximum x y))%Q.
Proof.
  intros Hx Hy. unfold np_maximum.
  assert (Hn : f32_isnan x = false) by (destruct x; trivial; contradiction).
  rewrite Hn. cbn [orb]. unfold SFleb.
  pose proof (SFcompare_magnitude prec32 emax32 prec32_pos y x Hy Hx) as C.
  destruct (SFcompare y x) as [[| |]|]; try contradiction.
  - subst y. split; [now left|]. split; apply Qle_refl.
  - split; [now left|]. split; [apply Qle_refl|now apply Qlt_le_weak].
  - split; [now right|]. split; [now apply Qlt_le_weak|apply Qle_refl].
Qed.

Lemma fold_np_maximum (l : list float32) :
  forall x0 : float32,
    magnitude prec32 emax32 x0 -> Forall (magnitude prec32 emax32) l ->
    magnitude prec32 emax32 (fold_left np_maximum l x0) /\
    In (fold_left np_maximum l x0) (x0 :: l) /\
    Forall (fun y => (SFmag y <= SFmag (fold_left np_maximum l x0))%Q) (x0 :: l).
Proof.
  induction l as [|a l IH]; intros x0 H0 Hl; cbn [fold_left].
  - split; [exact H0|]. split; [now left|]. constructor; [apply Qle_refl|constructor].
  - inversion Hl as [|? ? Ha Hl']; subst.
    destruct (np_maximum_magnitude x0 a H0 Ha) as (Hor & L0 & La).
    assert (H1 : magnitude prec32 emax32 (np_maximum x0 a))
      by (destruct Hor as [->| ->]; assumption).
    destruct (IH _ H1 Hl') as (Hm & Hin & Hall).
    split; [exact Hm|]. split.
    + destruct Hin as [E|Hin]; [|right; right; exact Hin].
      rewrite <- E. destruct Hor as [->| ->]; [left|right; left]; reflexivity.
    + inversion Hall as [|? ? Hx1 Hrest]; subst.
      constructor; [eapply Qle_trans; eassumption|].
      constructor; [eapply Qle_trans; eassumption|exact Hrest].
Qed.

(** [np.max(np.abs(samples_array))] is the largest magnitude of the array. *)
Lemma np_max_abs (samples : list float32) :
  samples <> [] -> finite_cells samples ->
  exists peak,
    np_max (np_abs samples) = inr peak /\
    magnitude prec32 emax32 peak /\
    In peak (np_abs samples) /\
    Forall (fun x => (SFmag x <= SFmag peak)%Q) samples.
Proof.
  intros Hne Hf. unfold finite_cells in Hf.
  destruct samples as [|x samples]; [congruence|].
  assert (Hmag : Forall (magnitude prec32 emax32) (np_abs (x :: samples))).
  { unfold np_abs. apply Forall_map. eapply Forall_impl; [|exact Hf].
    intros a (Fa & Va). now apply magnitude_SFabs. }
  cbn [np_abs map] in *. inversion Hmag as [|? ? Hx Hrest]; subst.
  destruct (fold_np_maximum _ _ Hx Hrest) as (Hm & Hin & Hall).
  eexists. split; [reflexivity|]. split; [exact Hm|]. split; [exact Hin|].
  change (SFabs x :: map SFabs samples) with (map SFabs (x :: samples)) in Hall.
  rewrite Forall_map in Hall.
  rewrite Forall_forall in Hall, Hf |- *. intros a Ha.
  destruct (Hf a Ha) as (Fa & Va).
  rewrite <- (proj2 (magnitude_SFabs a Fa Va)). now apply Hall.
Qed.

Lemma f32_gt_zero (peak : float32) :
  magnitude prec32 emax32 peak ->
  (f32_gt peak f32_zero = true /\ (0 < SFmag peak)%Q
   /\ exists m e, peak = S754_finite false m e)
  \/ (f32_gt peak f32_zero = false /\ peak = S754_zero false).
Proof.
  destruct peak as [s|s| |s m e]; cbn [magnitude]; try contradiction.
  - intros ->. right. split; reflexivity.
  - intros (-> & _). left. split; [reflexivity|]. split; [apply F2Q_pos; lia|eauto].
Qed.

Lemma finite_mag_0 (x : float32) :
  f32_finite x = true -> (SFmag x <= 0)%Q -> exists s, x = S754_zero s.
Proof.
  destruct x as [s|s| |s m e]; try discriminate; intros _ H; [eauto|].
  exfalso. cbn [SFmag] in H. apply (Qlt_irrefl 0).
  eapply Qlt_le_trans; [|exact H]. apply F2Q_pos. lia.
Qed.

(** What [peak_normalize] returns on finite samples, and the bound every
    normalised sample satisfies. *)
Lemma peak_normalize_finite (samples : list float32) :
  samples <> [] -> finite_cells samples ->
  exists peak normalized,
    np_max (np_abs samples) = inr peak /\
    In peak (np_abs samples) /\
    Forall (fun x => (SFmag x <= SFmag peak)%Q) samples /\
    peak_normalize samples = inr normalized /\
    ((0 < SFmag peak)%Q ->
       normalized = map (fun x => f32_div x peak) samples) /\
    ((SFmag peak == 0)%Q ->
       normalized = samples /\ Forall (fun x => exists s, x = S754_zero s) samples) /\
    Forall (fun s => f32_finite s = true /\ (SFmag s <= 1)%Q) normalized.
Proof.
  intros Hne Hf.
  destruct (np_max_abs samples Hne Hf) as (peak & Emax & Hm & Hin & Hall).
  unfold peak_normalize. rewrite Emax. cbn [bind].
  destruct (f32_gt_zero peak Hm) as [(G & Hpos & m & e & Ep)|(G & Ep)]; rewrite G.
  - exists peak. eexists. split; [reflexivity|]. split; [exact Hin|].
    split; [exact Hall|]. split; [reflexivity|]. split; [|split].
    + reflexivity.
    + intros Z. rewrite Z in Hpos. now apply Qlt_irrefl in Hpos.
    + apply Forall_map. unfold finite_cells in Hf.
      rewrite Forall_forall in Hf, Hall |- *. intros x Hx.
      subst peak. apply f32_div_le_1; [apply Hf, Hx|apply Hall, Hx].
  - exists peak. eexists. split; [reflexivity|]. split; [exact Hin|].
    split; [exact Hall|]. split; [reflexivity|]. subst peak. cbn [SFmag] in *.
    assert (Zs : Forall (fun x => exists s, x = S754_zero s) samples).
    { unfold finite_cells in Hf. rewrite Forall_forall in Hf, Hall |- *.
      intros x Hx. apply finite_mag_0; [apply Hf, Hx|apply Hall, Hx]. }
    split; [|split].
    + intros Hpos. now apply Qlt_irrefl in Hpos.
    + intros _. split; [reflexivity|exact Zs].
    + eapply Forall_impl; [|exact Zs]. intros x (s & ->). cbn. split; [reflexivity|discriminate].
Qed.

Section Normalize.

Variable cast_invalid : float32 -> Z.

Lemma quantize_finite (normalized : list float32) :
  Forall (fun s => f32_finite s = true /\ (SFmag s <= 1)%Q) normalized ->
  quantize cast_invalid normalized
    = map (fun s => Qtrunc (SF2Q (f32_mul s (f32_of_int 32767)))) normalized /\
  Forall (fun z => -32767 <= z <= 32767) (quantize cast_invalid normalized).
Proof.
  unfold quantize. induction 1 as [|s l (Hf & Hs) _ (IH1 & IH2)]; cbn [map].
  - split; [reflexivity|constructor].
  - destruct (f32_mul_32767_le s Hf Hs) as (Hf' & Hm').
    destruct (astype_int16_finite cast_invalid _ Hf' Hm') as (E & R).
    split; [now rewrite E, IH1|now constructor].
Qed.

Lemma quantize_full_scale (x peak : float32) :
  (0 < SFmag peak)%Q -> SFabs x = peak ->
  astype_int16 cast_invalid (f32_mul (f32_div x peak) (f32_of_int 32767))
  = if f32_signbit x then -32767 else 32767.
Proof.
  intros Hp E. destruct x as [s|s| |s m e]; cbn [SFabs] in E; subst peak;
    cbn [SFmag] in Hp; try (now apply Qlt_irrefl in Hp).
  rewrite f32_div_self, xorb_false_r, f32_mul_one_32767.
  destruct s; reflexivity.
Qed.

Lemma normalize_inr_quantize (samples : list py_float)
    (normalized : list float32) :
  samples <> [] ->
  peak_normalize (np_array_float32 samples) = inr normalized ->
  normalize cast_invalid samples = inr (quantize cast_invalid normalized).
Proof.
  intros Hne E. destruct samples as [|x samples]; [congruence|].
  unfold normalize. now rewrite E.
Qed.

End Normalize.

Lemma sample_is_finite :
  finite_samples (np_array_float32 [py_quarter; py_one]).
Proof. repeat constructor. Qed.

Lemma np_array_float32_nonempty (samples : list py_float) :
  samples <> [] -> np_array_float32 samples <> [].
Proof. destruct samples; [congruence|discriminate]. Qed.

(** C2 (as stated). Quantisation is not [round(s * 32767)]: the
    normalised sample 0.25 gives 8191.75, which rounds to 8192, while the
    code stores 8191. *)
Lemma quantize_is_not_round :
  ~ (forall (cast_invalid : float32 -> Z) (samples : list py_float)
            (normalized : list float32),
       finite_samples (np_array_float32 samples) ->
       peak_normalize (np_array_float32 samples) = inr normalized ->
       quantize cast_invalid normalized = map quantize_spec normalized).
Proof.
  intros H.
  specialize (H cast_zero [py_quarter; py_one] [f32_quarter; f32_one]
                sample_is_finite eq_refl).
  vm_compute in H. discriminate H.
Qed.

(** C2 (amended). For every non-empty sample list whose float32 array is
    finite, each peak-normalised float [s] is quantised to the float32
    product [s * 32767] with its fraction dropped (rounded toward zero,
    not to nearest); that integer is an int16, so clamping it to
    [-32768, 32767] would leave it unchanged. *)
Theorem quantize_truncates (cast_invalid : float32 -> Z)
    (samples : list py_float) (samples_array : list float32) :
  samples <> [] ->
  samples_array = np_array_float32 samples ->
  finite_samples samples_array ->
  exists normalized,
    peak_normalize samples_array = inr normalized /\
    normalize cast_invalid samples
      = inr (map (fun s => Qtrunc (SF2Q (f32_mul s (f32_of_int 32767))))
                 normalized) /\
    Forall (fun s =>
              let q := Qtrunc (SF2Q (f32_mul s (f32_of_int 32767))) in
              is_int16 q /\ clamp16 q = q) normalized.
Proof.
  intros Hne -> Hf.
  destruct (peak_normalize_finite _ (np_array_float32_nonempty _ Hne)
              (finite_cells_np_array _ Hf))
    as (peak & normalized & _ & _ & _ & En & _ & _ & Hn).
  destruct (quantize_finite cast_invalid normalized Hn) as (Eq & Hr).
  exists normalized. split; [exact En|]. split.
  - rewrite (normalize_inr_quantize cast_invalid samples normalized Hne En).
    now rewrite Eq.
  - rewrite Eq in Hr. rewrite Forall_map in Hr.
    eapply Forall_impl; [|exact Hr]. cbv beta zeta.
    intros s Hs. unfold is_int16, clamp16. lia.
Qed.

Lemma quantize_truncates_witness :
  exists normalized,
    peak_normalize [f32_quarter; f32_one] = inr normalized /\
    normalize cast_zero [py_quarter; py_one]
      = inr (map (fun s => Qtrunc (SF2Q (f32_mul s (f32_of_int 32767))))
                 normalized) /\
    Forall (fun s =>
              let q := Qtrunc (SF2Q (f32_mul s (f32_of_int 32767))) in
              is_int16 q /\ clamp16 q = q) normalized.
Proof.
  apply (quantize_truncates cast_zero [py_quarter; py_one]).
  - discriminate.
  - reflexivity.
  - exact sample_is_finite.
Defined.

Lemma quantize_zeros (cast_invalid : float32 -> Z) (l : list float32) :
  Forall (fun x => exists s, x = S754_zero s) l ->
  quantize cast_invalid l = repeat 0 (List.length l).
Proof.
  unfold quantize.
  induction 1 as [|a l (s & ->) _ IH]; [reflexivity|].
  cbn [map List.length repeat]. now rewrite IH.
Qed.

(** A maximum of absolute values that is zero was taken over zeros. *)
Lemma fold_np_maximum_zero (l : list float32) (acc : float32) :
  SFabs acc = acc ->
  fold_left np_maximum (map SFabs l) acc = S754_zero false ->
  acc = S754_zero false /\ Forall (fun x => exists s, x = S754_zero s) l.
Proof.
  revert acc. induction l as [|y l IH]; intros acc Ha E; [now split|].
  cbn [map fold_left] in E.
  assert (Hm : SFabs (np_maximum acc (SFabs y)) = np_maximum acc (SFabs y)).
  { unfold np_maximum. destruct (f32_isnan acc || SFleb (SFabs y) acc);
      [exact Ha|now destruct y]. }
  destruct (IH _ Hm E) as (Z & Hl). clear IH E Hm.
  assert (acc = S754_zero false /\ exists s, y = S754_zero s) as [-> Hy].
  { unfold np_maximum in Z.
    destruct acc as [sa|sa| |sa ma ea]; cbn [SFabs] in Ha;
      try (injection Ha as <-);
      destruct y as [sy|sy| |sy my ey]; cbn [SFabs f32_isnan orb] in Z;
      try discriminate Z; try (split; [reflexivity|eauto]; fail);
      match type of Z with
      | (if ?c then _ else _) = _ => destruct c; discriminate Z
      end. }
  split; [reflexivity|]. now constructor.
Qed.

Lemma np_max_abs_zero (samples_array : list float32) :
  np_max (np_abs samples_array) = inr (S754_zero false) ->
  Forall (fun x => exists s, x = S754_zero s) samples_array.
Proof.
  destruct samples_array as [|x l]; [discriminate|].
  cbn [np_abs map np_max]. unfold ret. intros E. injection E as E.
  destruct (fold_np_maximum_zero l (SFabs x)) as (Hx & Hl);
    [now destruct x|exact E|].
  constructor; [|exact Hl]. destruct x; try discriminate Hx. eauto.
Qed.

(** C6 (as stated). The peak is not the peak of the decoded samples.  The
    decoded sample 2^-248 is strictly positive and is its own peak, so
    scaled by 1 / peak it would be 1 and reach full scale; as a float32 it
    is 0, the array is taken for silence, nothing is scaled and 0 is
    stored. *)
Lemma peak_normalization_underflow :
  ~ (forall (cast_invalid : float32 -> Z) (samples : list py_float)
            (peak : py_float),
       In peak (map SFabs samples) ->
       Forall (fun x => SFleb (SFabs x) peak = true) samples ->
       SFltb (S754_zero false) peak = true ->
       exists samples_int16,
         normalize cast_invalid samples = inr samples_int16 /\
         Forall2 (fun x z => SFabs x = peak -> z <> 0) samples samples_int16).
Proof.
  intros H.
  destruct (H cast_zero [py_tiny] py_tiny) as (out & E & F).
  - left. reflexivity.
  - repeat constructor.
  - reflexivity.
  - vm_compute in E. injection E as <-.
    inversion F as [|x z l l' Hz _]; subst. now apply Hz.
Qed.

(** C6 (amended). The peak is [np.max(np.abs(.))] of the float32 array of a
    non-empty sample list.  When it compares greater than 0, every float32
    sample is divided by it before quantisation; when it does not (a zero,
    or the NaN that one NaN sample makes of it), the samples are quantised
    as they are; a peak of zero means that every sample is a zero, and the
    output is then a sequence of zeros.  When the array is finite, the peak
    is its largest absolute amplitude; if that is strictly positive every
    divided sample has magnitude at most one and a sample of peak magnitude
    reaches full scale, 32767 or -32767; if it is zero all samples are
    zeros and the quantised output is a sequence of int16 zeros of the same
    length. *)
Theorem peak_normalization (cast_invalid : float32 -> Z)
    (samples : list py_float) (samples_array : list float32) :
  samples <> [] ->
  samples_array = np_array_float32 samples ->
  exists peak,
    np_max (np_abs samples_array) = inr peak /\
    (f32_gt peak f32_zero = true ->
       peak_normalize samples_array
         = inr (map (fun x => f32_div x peak) samples_array) /\
       normalize cast_invalid samples
         = inr (map (fun x => astype_int16 cast_invalid
                                (f32_mul (f32_div x peak) (f32_of_int 32767)))
                    samples_array)) /\
    (f32_gt peak f32_zero = false ->
       peak_normalize samples_array = inr samples_array /\
       normalize cast_invalid samples
         = inr (map (fun x => astype_int16 cast_invalid
                                (f32_mul x (f32_of_int 32767)))
                    samples_array)) /\
    (peak = S754_zero false ->
       Forall (fun x => exists s, x = S754_zero s) samples_array /\
       peak_normalize samples_array = inr samples_array /\
       normalize cast_invalid samples = inr (repeat 0 (List.length samples))) /\
    (finite_samples samples_array ->
       In peak (np_abs samples_array) /\
       Forall (fun x => (SFmag x <= SFmag peak)%Q) samples_array /\
       (f32_gt peak f32_zero = true <-> (0 < SFmag peak)%Q) /\
       ((0 < SFmag peak)%Q ->
          peak_normalize samples_array
            = inr (map (fun x => f32_div x peak) samples_array) /\
          normalize cast_invalid samples
            = inr (map (fun x => astype_int16 cast_invalid
                                   (f32_mul (f32_div x peak) (f32_of_int 32767)))
                       samples_array) /\
          Forall (fun x => (SFmag (f32_div x peak) <= 1)%Q) samples_array /\
          Forall (fun x =>
                    SFabs x = peak ->
                    astype_int16 cast_invalid
                      (f32_mul (f32_div x peak) (f32_of_int 32767))
                    = if f32_signbit x then -32767 else 32767) samples_array) /\
       ((SFmag peak == 0)%Q ->
          peak_normalize samples_array = inr samples_array /\
          normalize cast_invalid samples = inr (repeat 0 (List.length samples)) /\
          Forall is_int16 (repeat 0 (List.length samples)))).
Proof.
  intros Hne ->.
  assert (Ha : np_array_float32 samples <> [])
    by now apply np_array_float32_nonempty.
  destruct (np_max (np_abs (np_array_float32 samples))) as [e|peak] eqn:Emax.
  { destruct (np_array_float32 samples); [congruence|discriminate Emax]. }
  exists peak. split; [reflexivity|].
  assert (Hgt : f32_gt peak f32_zero = true ->
                peak_normalize (np_array_float32 samples)
                = inr (map (fun x => f32_div x peak) (np_array_float32 samples)))
    by (intros G; unfold peak_normalize; rewrite Emax; cbn [bind]; now rewrite G).
  assert (Hle : f32_gt peak f32_zero = false ->
                peak_normalize (np_array_float32 samples)
                = inr (np_array_float32 samples))
    by (intros G; unfold peak_normalize; rewrite Emax; cbn [bind]; now rewrite G).
  split; [|split; [|split]].
  - intros G. split; [exact (Hgt G)|].
    rewrite (normalize_inr_quantize cast_invalid samples _ Hne (Hgt G)).
    unfold quantize. now rewrite map_map.
  - intros G. split; [exact (Hle G)|].
    now rewrite (normalize_inr_quantize cast_invalid samples _ Hne (Hle G)).
  - intros ->. pose proof (np_max_abs_zero _ Emax) as Zs.
    split; [exact Zs|]. split; [now apply Hle|].
    rewrite (normalize_inr_quantize cast_invalid samples _ Hne (Hle eq_refl)).
    rewrite (quantize_zeros _ _ Zs). unfold np_array_float32.
    now rewrite length_map.
  - intros Hf.
    destruct (np_max_abs _ Ha (finite_cells_np_array _ Hf))
      as (peak0 & Emax0 & Hm & _).
    assert (peak0 = peak) by congruence. subst peak0.
    destruct (peak_normalize_finite _ Ha (finite_cells_np_array _ Hf))
      as (peak0 & normalized & Emax1 & Hin & Hall & En & Hpos & Hzero & Hn).
    assert (peak0 = peak) by congruence. subst peak0.
    split; [exact Hin|]. split; [exact Hall|]. split.
    { destruct (f32_gt_zero peak Hm) as [(G & P & _)|(G & ->)]; rewrite G.
      - split; auto.
      - split; [discriminate|]. cbn [SFmag]. intros P.
        now apply Qlt_irrefl in P. }
    rewrite (normalize_inr_quantize cast_invalid samples normalized Hne En).
    split.
    + intros P. specialize (Hpos P). subst normalized.
      split; [exact En|]. split; [|split].
      * unfold quantize. now rewrite map_map.
      * now rewrite Forall_map in Hn; eapply Forall_impl; [|exact Hn];
          intros a [_ Ha'].
      * apply Forall_forall. intros a _ Ea.
        now apply quantize_full_scale.
    + intros Z. destruct (Hzero Z) as (-> & Zs).
      split; [exact En|]. split.
      * rewrite (quantize_zeros _ _ Zs). unfold np_array_float32.
        now rewrite length_map.
      * apply Forall_forall. intros z Hz. apply repeat_spec in Hz. subst z.
        unfold is_int16. lia.
Qed.

Lemma peak_normalization_witness :
  exists peak,
    np_max (np_abs [f32_quarter; f32_one]) = inr peak /\
    (0 < SFmag peak)%Q /\
    peak_normalize [f32_quarter; f32_one]
      = inr (map (fun x => f32_div x peak) [f32_quarter; f32_one]).
Proof.
  destruct (peak_normalization cast_zero [py_quarter; py_one]
              [f32_quarter; f32_one])
    as (peak & Emax & _ & _ & _ & Hfin).
  - discriminate.
  - reflexivity.
  - destruct (Hfin sample_is_finite) as (_ & _ & _ & Hpos & _).
    exists peak. split; [exact Emax|].
    assert (P : (0 < SFmag peak)%Q) by (injection Emax as <-; reflexivity).
    split; [exact P|]. apply (Hpos P).
Defined.




(** ** Empty audio *)

Section Orchestrator.

Variable cast_invalid : float32 -> Z.

Lemma normalize_inr (x : py_float) (samples : list py_float) :
  exists samples_int16, normalize cast_invalid (x :: samples) = inr samples_int16.
Proof.
  unfold normalize, peak_normalize, np_max, np_array_float32.
  cbn [np_abs map bind ret].
  destruct (f32_gt _ f32_zero); eexists; reflexivity.
Qed.

Lemma normalize_length (samples : list py_float) (samples_int16 : list Z) :
  normalize cast_invalid samples = inr samples_int16 ->
  samples <> [] /\ List.length samples_int16 = List.length samples.
Proof.
  destruct samples as [|x l]; [discriminate|]. intros E. split; [discriminate|].
  unfold normalize, peak_normalize, np_max, np_array_float32 in E.
  cbn [np_abs map bind ret] in E.
  destruct (f32_gt _ f32_zero); injection E as <-; unfold quantize;
    cbn [map List.length]; now rewrite ?length_map.
Qed.

Lemma write_wav_length (samples_int16 : list Z) (wav : bytes) :
  write_wav samples_int16 = inr wav ->
  List.length wav = (44 + 2 * List.length samples_int16)%nat.
Proof.
  intros E.
  destruct (Z.le_gt_cases (36 + 2 * Z.of_nat (List.length samples_int16)) 4294967295)
    as [H|H].
  - rewrite (write_wav_inr _ H) in E.
    assert (L : forall r : result bytes, r = inr wav ->
                  match r with inr x => List.length x | inl _ => 0%nat end
                  = List.length wav) by (intros r ->; reflexivity).
    rewrite <- (L _ E).
    rewrite !length_app, length_tobytes, !length_le_split. reflexivity.
  - destruct (write_wav_inl _ H) as [e E']. congruence.
Qed.

(** A WAV that leaves [convert_to_wav] holds at least one sample. *)
Lemma convert_to_wav_length (w : world) (audio_data : bytes)
    (input_format : option string) (wav : bytes) :
  convert_to_wav cast_invalid w audio_data input_format = inr wav ->
  (46 <= List.length wav)%nat.
Proof.
  unfold convert_to_wav. intros E.
  destruct (av_open w audio_data input_format) as [e|streams]; [discriminate E|].
  cbn [bind] in E.
  destruct (find_audio_stream streams) as [audio_stream|]; [|discriminate E].
  destruct (stream_frames audio_stream) as [e|frames]; [discriminate E|].
  cbn [bind] in E.
  destruct (normalize cast_invalid (List.concat frames)) as [e|out] eqn:En;
    [discriminate E|]. cbn [bind] in E.
  apply normalize_length in En as (Hne & Hl).
  apply write_wav_length in E. rewrite E, Hl.
  destruct (List.concat frames); [congruence|cbn [List.length]; lia].
Qed.

(** C5. An empty decoded sample list makes [normalize] raise
    "No audio samples decoded", and that is the only case in which it
    raises; the exception leaves [convert_to_wav] before any byte of WAV is
    built, and [transcribe_audio] answers with a failure response, without
    writing a temporary file or calling the model. A WAV that does leave
    [convert_to_wav] is never empty of samples: it has at least 46 bytes. *)
Theorem empty_audio_error (w : world) (audio_data : bytes) (fs : files)
    (streams : list av_stream) (audio_stream : av_stream)
    (frames : list (list py_float)) (samples : list py_float) :
  normalize cast_invalid [] = inl (ValueError "No audio samples decoded") /\
  ((exists e, normalize cast_invalid samples = inl e) <-> samples = []) /\
  (forall wav,
      convert_to_wav cast_invalid w audio_data (detect_audio_format audio_data)
        = inr wav -> (46 <= List.length wav)%nat) /\
  (av_open w audio_data (detect_audio_format audio_data) = inr streams ->
   find_audio_stream streams = Some audio_stream ->
   stream_frames audio_stream = inr frames ->
   List.concat frames = [] ->
   convert_to_wav cast_invalid w audio_data (detect_audio_format audio_data)
     = inl (ValueError "No audio samples decoded") /\
   (load_model w = inr tt ->
    format_is_wav (detect_audio_format audio_data) = false ->
    transcribe_audio cast_invalid w audio_data fs
      = (inr (failure "Audio conversion failed: No audio samples decoded"),
         fs, [EvConvert audio_data (detect_audio_format audio_data)]))).
Proof.
  split; [reflexivity|]. split.
  - split.
    + intros (e & E). destruct samples as [|x l]; [reflexivity|].
      destruct (normalize_inr x l) as (out & E'). congruence.
    + intros ->. eexists; reflexivity.
  - split; [intros wav; apply convert_to_wav_length|].
    intros Eo Ef Es Ec.
    assert (C : convert_to_wav cast_invalid w audio_data (detect_audio_format audio_data)
                = inl (ValueError "No audio samples decoded")).
    { unfold convert_to_wav. rewrite Eo. cbn [bind]. rewrite Ef, Es. cbn [bind].
      rewrite Ec. reflexivity. }
    split; [exact C|]. intros El Ew.
    unfold transcribe_audio. rewrite El, Ew, C. reflexivity.
Qed.

(** The ways [convert_to_wav] raises: opening the container, finding no
    audio stream, decoding a frame, normalising an empty sample list,
    serialising the WAV. *)
Lemma convert_to_wav_raises (w : world) (audio_data : bytes)
    (input_format : option string) (e : exn) :
  convert_to_wav cast_invalid w audio_data input_format = inl e <->
  av_open w audio_data input_format = inl e \/
  exists streams,
    av_open w audio_data input_format = inr streams /\
    ((find_audio_stream streams = None /\ e = ValueError "No audio stream found")
     \/ exists audio_stream,
          find_audio_stream streams = Some audio_stream /\
          (stream_frames audio_stream = inl e
           \/ exists frames,
                stream_frames audio_stream = inr frames /\
                (normalize cast_invalid (List.concat frames) = inl e
                 \/ exists samples_int16,
                      normalize cast_invalid (List.concat frames)
                        = inr samples_int16 /\
                      write_wav samples_int16 = inl e))).
Proof.
  unfold convert_to_wav.
  destruct (av_open w audio_data input_format) as [e0|streams] eqn:Eo; cbn [bind].
  { split.
    - intros H. left. congruence.
    - intros [H|(streams & H & _)]; congruence. }
  destruct (find_audio_stream streams) as [audio_stream|] eqn:Ef.
  2:{ split.
      - intros H. right. exists streams. split; [reflexivity|]. left.
        split; [exact Ef|]. unfold raise in H. congruence.
      - unfold raise.
        intros [H|(streams' & H & [(N & ->)|(s' & S & _)])]; congruence. }
  destruct (stream_frames audio_stream) as [e1|frames] eqn:Es; cbn [bind].
  { split.
    - intros H. right. exists streams. split; [reflexivity|]. right.
      exists audio_stream. split; [exact Ef|]. left. congruence.
    - intros [H|(streams' & H & [(N & _)|(s' & S & [F|(frames & F & _)])])];
        congruence. }
  destruct (normalize cast_invalid (List.concat frames)) as [e2|out] eqn:En;
    cbn [bind].
  - split.
    + intros H. right. exists streams. split; [reflexivity|]. right.
      exists audio_stream. split; [exact Ef|]. right.
      exists frames. split; [exact Es|]. left. congruence.
    + intros [H|(streams' & H & [(N & _)|(s' & S & [F|(frames' & F
         & [N|(out & N & _)])])])]; congruence.
  - split.
    + intros H. right. exists streams. split; [reflexivity|]. right.
      exists audio_stream. split; [exact Ef|]. right.
      exists frames. split; [exact Es|]. right.
      exists out. split; [exact En|exact H].
    + intros [H|(streams' & H & [(N & _)|(s' & S & [F|(frames' & F
         & [N|(out' & N & W)])])])]; congruence.
Qed.

End Orchestrator.

Lemma empty_audio_error_witness :
  convert_to_wav cast_zero (sample_world [[]; []]) (b "OggS")
    (detect_audio_format (b "OggS"))
  = inl (ValueError "No audio samples decoded") /\
  transcribe_audio cast_zero (sample_world [[]; []]) (b "OggS") []
  = (inr (failure "Audio conversion failed: No audio samples decoded"),
     [], [EvConvert (b "OggS") (Some "ogg")]).
Proof.
  destruct (empty_audio_error cast_zero (sample_world [[]; []]) (b "OggS") []
              [ {| stream_type := "video"; stream_frames := inr [] |};
                {| stream_type := "audio"; stream_frames := inr [[]; []] |} ]
              {| stream_type := "audio"; stream_frames := inr [[]; []] |}
              [[]; []] [])
    as (_ & _ & _ & H).
  destruct H as (C & T); try reflexivity.
  split; [exact C|]. apply T; reflexivity.
Defined.

(** ** TranscriptionOrchestrator *)

Lemma file_read_write (path : string) (data : bytes) (fs : files) :
  file_read path (file_write path data fs) = Some data.
Proof. unfold file_read, file_write. cbn [find fst snd]. now rewrite String.eqb_refl. Qed.

(** C7. Whatever makes the conversion of a non-WAV blob raise (opening
    the container, a missing audio stream, a decoder error, an empty
    sample list, the WAV serialisation), [transcribe_audio] does not let
    the exception through: it returns a response with [success] false, an
    empty [text] and the non-empty message "Audio conversion failed: ..."
    built from the exception; no file is written and the model is not
    called. Sniffing itself cannot raise. *)
Theorem conversion_failure_is_structured (cast_invalid : float32 -> Z)
    (w : world) (audio_data : bytes) (fs : files) (e : exn) :
  load_model w = inr tt ->
  format_is_wav (detect_audio_format audio_data) = false ->
  convert_to_wav cast_invalid w audio_data (detect_audio_format audio_data)
    = inl e ->
  exists r message,
    transcribe_audio cast_invalid w audio_data fs
      = (inr r, fs, [EvConvert audio_data (detect_audio_format audio_data)]) /\
    success r = false /\
    text r = [] /\
    error r = Some message /\
    message = ("Audio conversion failed: " ++ str_exn e)%string /\
    message <> "".
Proof.
  intros El Ew Ec. unfold transcribe_audio. rewrite El, Ew, Ec. cbn [negb].
  eexists. eexists. split; [reflexivity|].
  repeat split. discriminate.
Qed.

Lemma conversion_failure_is_structured_witness :
  exists r message,
    transcribe_audio cast_zero (sample_world []) (b "fLaC") []
    = (inr r, [], [EvConvert (b "fLaC") (Some "flac")]) /\
    success r = false /\ text r = [] /\ error r = Some message /\
    message <> "".
Proof.
  destruct (conversion_failure_is_structured cast_zero
              (sample_world []) (b "fLaC") []
              (ValueError "No audio samples decoded"))
    as (r & message & T & S & X & E & _ & N); try reflexivity.
  exists r, message. auto.
Defined.

(** C8. A blob sniffed as WAV is not converted: [transcribe_audio]
    behaves as [transcribe_file] on the very bytes it received, so the
    decoder is never called, the bytes written to the temporary file are
    the input bytes, and the model is run on a file holding exactly them. *)
Theorem wav_passthrough (cast_invalid : float32 -> Z) (w : world)
    (audio_data : bytes) (fs : files) (temp_path : string) :
  load_model w = inr tt ->
  detect_audio_format audio_data = Some "wav" ->
  named_temporary_file w = inr temp_path ->
  transcribe_audio cast_invalid w audio_data fs
    = transcribe_file w audio_data fs /\
  snd (transcribe_audio cast_invalid w audio_data fs)
    = [EvTempWrite temp_path audio_data; EvTranscribe temp_path;
       EvUnlink temp_path] /\
  (forall data fmt,
      ~ In (EvConvert data fmt)
           (snd (transcribe_audio cast_invalid w audio_data fs))) /\
  file_read temp_path (file_write temp_path audio_data fs) = Some audio_data /\
  (exists r,
      fst (fst (transcribe_audio cast_invalid w audio_data fs)) = inr r /\
      match model_transcribe w (Some audio_data) with
      | inr t => success r = true
      | inl e => r = failure (str_exn e)
      end).
Proof.
  intros El Ed Et.
  assert (E : transcribe_audio cast_invalid w audio_data fs
              = transcribe_file w audio_data fs).
  { unfold transcribe_audio. rewrite El, Ed. reflexivity. }
  rewrite E. unfold transcribe_file. rewrite Et, file_read_write.
  cbn [fst snd]. split; [reflexivity|]. split; [reflexivity|]. split; [|split].
  - intros data fmt [H|[H|[H|[]]]]; discriminate H.
  - reflexivity.
  - eexists. split; [reflexivity|].
    destruct (model_transcribe w (Some audio_data)); reflexivity.
Qed.

Lemma wav_passthrough_witness :
  snd (transcribe_audio cast_zero (sample_world []) (b "RIFF$") [])
  = [EvTempWrite "/tmp/tmpq1w2e3.wav" (b "RIFF$");
     EvTranscribe "/tmp/tmpq1w2e3.wav"; EvUnlink "/tmp/tmpq1w2e3.wav"].
Proof.
  apply (wav_passthrough cast_zero (sample_world []) (b "RIFF$") []
           "/tmp/tmpq1w2e3.wav"); reflexivity.
Defined.

(** ** A complete run *)

(** An Ogg blob decoded to the two samples 0.25 and -1.0: the WAV written
    to the temporary file holds 8191 and -32767, the model answers, and the
    file is removed. *)
Example transcribe_audio_run :
  transcribe_audio cast_zero
    (sample_world [[py_quarter]; [SFopp py_one]]) (b "OggS") []
  = (inr {| success := true; text := str "hello world"; error := None;
            language := Some "en"; duration := Some (S754_zero false) |},
     [],
     [EvConvert (b "OggS") (Some "ogg");
      EvTempWrite "/tmp/tmpq1w2e3.wav"
        (b "RIFF" ++ le_split 4 40 ++ b "WAVEfmt " ++ le_split 4 16
         ++ le_split 2 1 ++ le_split 2 1 ++ le_split 4 16000
         ++ le_split 4 32000 ++ le_split 2 2 ++ le_split 2 16
         ++ b "data" ++ le_split 4 4 ++ le_split 2 8191 ++ le_split 2 (-32767));
      EvTranscribe "/tmp/tmpq1w2e3.wav";
      EvUnlink "/tmp/tmpq1w2e3.wav"]).
Proof. vm_compute. reflexivity. Qed.

(** * Further properties of the server *)

(** ** Sniffing *)

Lemma detect_audio_format_firstn (blob : bytes) :
  detect_audio_format (firstn 4 blob) = detect_audio_format blob.
Proof.
  unfold detect_audio_format, slice_to.
  rewrite !firstn_firstn. reflexivity.
Qed.

(** X1. [detect_audio_format] never looks past the fourth byte: two blobs
    with the same first four bytes are sniffed alike. *)
Theorem detect_audio_format_prefix_only (blob blob' : bytes) :
  firstn 4 blob = firstn 4 blob' ->
  detect_audio_format blob = detect_audio_format blob'.
Proof.
  intros H. rewrite <- (detect_audio_format_firstn blob), H.
  apply detect_audio_format_firstn.
Qed.

Lemma detect_audio_format_prefix_only_witness :
  detect_audio_format (b "fLaC" ++ [Byte.x00; Byte.x01])
  = detect_audio_format (b "fLaC" ++ b "anything else").
Proof.
  apply (detect_audio_format_prefix_only
           (b "fLaC" ++ [Byte.x00; Byte.x01]) (b "fLaC" ++ b "anything else")).
  reflexivity.
Defined.

(** ** Conversion *)

Lemma write_wav_inv (samples_int16 : list Z) (wav : bytes) :
  write_wav samples_int16 = inr wav ->
  36 + 2 * Z.of_nat (List.length samples_int16) <= 4294967295 /\
  write_wav samples_int16 =
  inr (b "RIFF" ++ le_split 4 (36 + 2 * Z.of_nat (List.length samples_int16))
       ++ b "WAVEfmt " ++ le_split 4 16 ++ le_split 2 1 ++ le_split 2 1
       ++ le_split 4 16000 ++ le_split 4 32000 ++ le_split 2 2 ++ le_split 2 16
       ++ b "data" ++ le_split 4 (2 * Z.of_nat (List.length samples_int16))
       ++ tobytes samples_int16).
Proof.
  intros E.
  destruct (Z.le_gt_cases (36 + 2 * Z.of_nat (List.length samples_int16)) 4294967295)
    as [H|H].
  - split; [exact H|]. now apply write_wav_inr.
  - destruct (write_wav_inl _ H) as [e E']. congruence.
Qed.

Section Conversion.

Variable cast_invalid : float32 -> Z.

(** The steps behind a successful conversion. *)
Lemma convert_to_wav_inr (w : world) (audio_data : bytes)
    (input_format : option string) (wav : bytes) :
  convert_to_wav cast_invalid w audio_data input_format = inr wav ->
  exists streams audio_stream frames samples_int16,
    av_open w audio_data input_format = inr streams /\
    find_audio_stream streams = Some audio_stream /\
    stream_frames audio_stream = inr frames /\
    normalize cast_invalid (List.concat frames) = inr samples_int16 /\
    write_wav samples_int16 = inr wav.
Proof.
  unfold convert_to_wav. intros E.
  destruct (av_open w audio_data input_format) as [e|streams];
    [discriminate E|]. cbn [bind] in E.
  destruct (find_audio_stream streams) as [audio_stream|] eqn:Ef;
    [|discriminate E].
  destruct (stream_frames audio_stream) as [e|frames] eqn:Es; [discriminate E|].
  cbn [bind] in E.
  destruct (normalize cast_invalid (List.concat frames)) as [e|out] eqn:En;
    [discriminate E|]. cbn [bind] in E.
  exists streams, audio_stream, frames, out. repeat split; assumption.
Qed.

Lemma convert_to_wav_detect (w : world) (audio_data : bytes)
    (input_format : option string) (wav : bytes) :
  convert_to_wav cast_invalid w audio_data input_format = inr wav ->
  detect_audio_format wav = Some "wav".
Proof.
  intros E.
  destruct (convert_to_wav_inr _ _ _ _ E) as (_ & _ & _ & out & _ & _ & _ & _ & W).
  destruct (write_wav_inv _ _ W) as (_ & W'). rewrite W' in W.
  rewrite <- detect_audio_format_firstn.
  assert (L : forall r : result bytes, r = inr wav ->
                match r with inr x => firstn 4 x | inl _ => [] end
                = firstn 4 wav) by (intros r ->; reflexivity).
  rewrite <- (L _ W). reflexivity.
Qed.

(** X2. What [convert_to_wav] returns is itself sniffed as "wav": fed
    back to the server, a converted blob is passed through unconverted. *)
Theorem convert_to_wav_is_wav (w : world) (audio_data : bytes)
    (input_format : option string) (wav : bytes) :
  convert_to_wav cast_invalid w audio_data input_format = inr wav ->
  detect_audio_format wav = Some "wav" /\
  format_is_wav (detect_audio_format wav) = true.
Proof.
  intros E. rewrite (convert_to_wav_detect _ _ _ _ E). split; reflexivity.
Qed.

(** X3. A conversion that succeeds writes one 16-bit sample per decoded
    sample, whatever the stream, and stamps the result as 16000 Hz mono:
    the byte count is 44 plus twice the number of decoded samples, and the
    data size field is twice that number. *)
Theorem convert_to_wav_sample_count (w : world) (audio_data : bytes)
    (input_format : option string) (wav : bytes) :
  convert_to_wav cast_invalid w audio_data input_format = inr wav ->
  exists streams audio_stream frames,
    av_open w audio_data input_format = inr streams /\
    find_audio_stream streams = Some audio_stream /\
    stream_frames audio_stream = inr frames /\
    List.length wav = (44 + 2 * List.length (List.concat frames))%nat /\
    read_le 40 4 wav = 2 * Z.of_nat (List.length (List.concat frames)) /\
    read_le 24 4 wav = 16000 /\
    read_le 22 2 wav = 1.
Proof.
  intros E.
  destruct (convert_to_wav_inr _ _ _ _ E)
    as (streams & audio_stream & frames & out & Eo & Ef & Es & En & W).
  exists streams, audio_stream, frames.
  split; [exact Eo|]. split; [exact Ef|]. split; [exact Es|].
  pose proof (write_wav_length _ _ W) as L.
  destruct (normalize_length cast_invalid _ _ En) as (_ & Ln).
  destruct (write_wav_inv _ _ W) as (Hn & W'). rewrite W' in W.
  assert (R : forall (f : bytes -> Z) (r : result bytes), r = inr wav ->
                match r with inr x => f x | inl _ => 0 end = f wav)
    by (intros f r ->; reflexivity).
  split; [now rewrite L, Ln|]. split; [|split].
  - rewrite <- (R (read_le 40 4) _ W), <- Ln.
    change (read_le 40 4 _)
      with (le_combine (le_split 4 (2 * Z.of_nat (List.length out)))).
    rewrite le_combine_split. apply Z.mod_small.
    change (2 ^ _) with 4294967296. lia.
  - rewrite <- (R (read_le 24 4) _ W). reflexivity.
  - rewrite <- (R (read_le 22 2) _ W). reflexivity.
Qed.

End Conversion.

Lemma convert_to_wav_is_wav_witness :
  exists wav,
    convert_to_wav cast_zero (sample_world [[py_quarter]; [py_one]]) (b "OggS")
      (Some "ogg") = inr wav /\
    detect_audio_format wav = Some "wav".
Proof.
  eexists. split; [vm_compute; reflexivity|].
  eapply (convert_to_wav_is_wav cast_zero (sample_world [[py_quarter]; [py_one]])
            (b "OggS") (Some "ogg")).
  vm_compute. reflexivity.
Defined.

Lemma convert_to_wav_sample_count_witness :
  exists wav,
    convert_to_wav cast_zero (sample_world [[py_quarter]; [py_one]]) (b "OggS")
      (Some "ogg") = inr wav /\
    List.length wav = 48%nat.
Proof.
  eexists. split; [vm_compute; reflexivity|].
  edestruct (convert_to_wav_sample_count cast_zero
               (sample_world [[py_quarter]; [py_one]]) (b "OggS") (Some "ogg"))
    as (streams & audio_stream & frames & Eo & Ef & Es & L & _).
  - vm_compute. reflexivity.
  - injection Eo as <-. injection Ef as <-. injection Es as <-. exact L.
Defined.

Section Streams.

Variable cast_invalid : float32 -> Z.

Lemma find_audio_stream_none (streams : list av_stream) :
  Forall (fun s => stream_type s <> "audio") streams ->
  find_audio_stream streams = None.
Proof.
  unfold find_audio_stream. induction 1 as [|s l Hs _ IH]; [reflexivity|].
  cbn [find]. destruct (String.eqb_spec (stream_type s) "audio"); [contradiction|].
  exact IH.
Qed.

(** X4. A container that opens but has no stream of type "audio" makes
    the conversion raise "No audio stream found", whatever else it holds. *)
Theorem convert_to_wav_no_audio_stream (w : world) (audio_data : bytes)
    (input_format : option string) (streams : list av_stream) :
  av_open w audio_data input_format = inr streams ->
  Forall (fun s => stream_type s <> "audio") streams ->
  convert_to_wav cast_invalid w audio_data input_format
  = inl (ValueError "No audio stream found").
Proof.
  intros Eo Hs. unfold convert_to_wav. rewrite Eo. cbn [bind].
  now rewrite (find_audio_stream_none _ Hs).
Qed.

(** X5. Only the first stream of type "audio" is decoded: the streams
    before it are skipped and those after it are never read, so what they
    hold, or whether decoding them would fail, does not matter. *)
Theorem convert_to_wav_first_audio_stream (w : world) (audio_data : bytes)
    (input_format : option string)
    (skipped others : list av_stream) (audio_stream : av_stream) :
  av_open w audio_data input_format
    = inr (skipped ++ audio_stream :: others) ->
  Forall (fun s => stream_type s <> "audio") skipped ->
  stream_type audio_stream = "audio" ->
  convert_to_wav cast_invalid w audio_data input_format
  = (frames <- stream_frames audio_stream ;;
     samples_int16 <- normalize cast_invalid (List.concat frames) ;;
     write_wav samples_int16).
Proof.
  intros Eo Hs Ha. unfold convert_to_wav. rewrite Eo. cbn [bind].
  assert (F : find_audio_stream (skipped ++ audio_stream :: others)
              = Some audio_stream).
  { clear Eo. unfold find_audio_stream.
    induction Hs as [|s l Hs' _ IH]; cbn [app find].
    - now rewrite Ha.
    - destruct (String.eqb_spec (stream_type s) "audio"); [contradiction|].
      exact IH. }
  now rewrite F.
Qed.

End Streams.

Lemma convert_to_wav_no_audio_stream_witness :
  convert_to_wav cast_zero
    {| load_model := inr tt;
       av_open := fun _ _ =>
         inr [ {| stream_type := "video"; stream_frames := inr [[py_one]] |} ];
       named_temporary_file := inr "/tmp/tmpq1w2e3.wav";
       temp_file_left := None;
       model_transcribe := fun _ => inl (ExternalError "unused");
       os_unlink_ok := true |}
    (b "ftyp") None
  = inl (ValueError "No audio stream found").
Proof.
  eapply convert_to_wav_no_audio_stream; [reflexivity|].
  repeat constructor. discriminate.
Defined.

Lemma convert_to_wav_first_audio_stream_witness :
  convert_to_wav cast_zero (sample_world [[py_one]]) (b "OggS") (Some "ogg")
  = (frames <- inr [[py_one]] ;;
     samples_int16 <- normalize cast_zero (List.concat frames) ;;
     write_wav samples_int16).
Proof.
  apply (convert_to_wav_first_audio_stream cast_zero (sample_world [[py_one]])
           (b "OggS") (Some "ogg")
           [ {| stream_type := "video"; stream_frames := inr [] |} ] []
           {| stream_type := "audio"; stream_frames := inr [[py_one]] |}).
  - reflexivity.
  - repeat constructor. discriminate.
  - reflexivity.
Defined.

(** ** Samples that are not numbers *)

Lemma np_maximum_nan (x y : float32) :
  x = S754_nan \/ y = S754_nan -> np_maximum x y = S754_nan.
Proof.
  unfold np_maximum. intros [->| ->]; [reflexivity|].
  destruct x; reflexivity.
Qed.

Lemma fold_np_maximum_nan (l : list float32) :
  forall x0, x0 = S754_nan \/ In S754_nan l ->
             fold_left np_maximum l x0 = S754_nan.
Proof.
  induction l as [|a l IH]; intros x0 H; cbn [fold_left].
  - destruct H as [H|[]]. exact H.
  - apply IH. destruct H as [H|[H|H]].
    + left. apply np_maximum_nan. now left.
    + left. apply np_maximum_nan. now right.
    + now right.
Qed.

(** X6. One NaN among the decoded samples switches peak normalisation
    off for the whole clip: the peak is NaN, the test [max_val > 0] fails,
    and every sample is quantised unscaled. *)
Theorem nan_disables_normalization (cast_invalid : float32 -> Z)
    (samples : list py_float) :
  In S754_nan samples ->
  np_max (np_abs (np_array_float32 samples)) = inr S754_nan /\
  peak_normalize (np_array_float32 samples) = inr (np_array_float32 samples) /\
  normalize cast_invalid samples
  = inr (map (fun x => astype_int16 cast_invalid
                         (f32_mul (f32_of_float x) (f32_of_int 32767)))
             samples).
Proof.
  intros Hin.
  assert (Hin' : In S754_nan (np_abs (np_array_float32 samples))).
  { unfold np_abs, np_array_float32. rewrite map_map.
    apply in_map_iff. exists S754_nan. split; [reflexivity|exact Hin]. }
  assert (M : np_max (np_abs (np_array_float32 samples)) = inr S754_nan).
  { destruct (np_abs (np_array_float32 samples)) as [|x l]; [destruct Hin'|].
    unfold np_max, ret. f_equal. apply fold_np_maximum_nan.
    destruct Hin' as [->|H]; [now left|now right]. }
  assert (P : peak_normalize (np_array_float32 samples)
              = inr (np_array_float32 samples))
    by (unfold peak_normalize; rewrite M; reflexivity).
  split; [exact M|]. split; [exact P|].
  destruct samples as [|x l]; [destruct Hin|].
  unfold normalize. rewrite P. cbn [bind]. unfold ret, quantize, np_array_float32.
  now rewrite map_map.
Qed.

Lemma nan_disables_normalization_witness :
  peak_normalize (np_array_float32 [py_quarter; S754_nan])
  = inr (np_array_float32 [py_quarter; S754_nan]).
Proof.
  apply (nan_disables_normalization cast_zero [py_quarter; S754_nan]).
  right; left; reflexivity.
Defined.

(** ** Trimming *)

Lemma lstrip_no_leading_space (s : py_str) :
  starts_with_space (lstrip s) = false.
Proof.
  induction s as [|c s IH]; [reflexivity|]. cbn [lstrip].
  destruct (is_space c) eqn:E; [exact IH|]. cbn [starts_with_space]. exact E.
Qed.

Lemma rstrip_no_trailing_space (s : py_str) :
  ends_with_space (rstrip s) = false.
Proof.
  induction s as [|c s IH]; [reflexivity|]. cbn [rstrip].
  destruct (rstrip s) as [|d r] eqn:R.
  - destruct (is_space c) eqn:E; [reflexivity|]. cbn [ends_with_space]. exact E.
  - cbn [ends_with_space] in IH |- *. exact IH.
Qed.

Lemma rstrip_keeps_start (s : py_str) :
  starts_with_space s = false -> starts_with_space (rstrip s) = false.
Proof.
  destruct s as [|c s]; [reflexivity|]. cbn [starts_with_space rstrip].
  intros E. destruct (rstrip s); [rewrite E|]; cbn [starts_with_space]; exact E.
Qed.

Lemma lstrip_id (s : py_str) : starts_with_space s = false -> lstrip s = s.
Proof.
  destruct s as [|c s]; [reflexivity|]. cbn [starts_with_space lstrip].
  now intros ->.
Qed.

Lemma rstrip_id (s : py_str) : ends_with_space s = false -> rstrip s = s.
Proof.
  induction s as [|c s IH]; [reflexivity|]. cbn [rstrip].
  destruct s as [|d s'].
  - cbn [ends_with_space rstrip]. now intros ->.
  - intros E. change (ends_with_space (d :: s') = false) in E.
    now rewrite (IH E).
Qed.

Lemma strip_trimmed (s : py_str) :
  starts_with_space (strip s) = false /\
  ends_with_space (strip s) = false /\
  strip (strip s) = strip s.
Proof.
  unfold strip.
  pose proof (rstrip_keeps_start _ (lstrip_no_leading_space s)) as S.
  pose proof (rstrip_no_trailing_space (lstrip s)) as E.
  split; [exact S|]. split; [exact E|].
  now rewrite (lstrip_id _ S), (rstrip_id _ E).
Qed.

(** ** The temporary file *)

Lemma file_read_unlink (path q : string) (fs : files) :
  file_read q (file_unlink path fs)
  = if String.eqb q path then None else file_read q fs.
Proof.
  unfold file_read, file_unlink.
  induction fs as [|[p d] fs IH]; cbn [filter find fst snd].
  - now destruct (String.eqb q path).
  - destruct (String.eqb_spec p path) as [->|Np]; cbn [negb].
    + rewrite IH. destruct (String.eqb_spec q path) as [->|Nq]; [reflexivity|].
      destruct (String.eqb_spec path q) as [->|_]; [congruence|reflexivity].
    + cbn [find fst snd]. destruct (String.eqb_spec p q) as [->|Npq].
      * destruct (String.eqb_spec q path) as [->|_]; [congruence|reflexivity].
      * exact IH.
Qed.

Lemma file_read_write_other (path q : string) (data : bytes) (fs : files) :
  q <> path -> file_read q (file_write path data fs) = file_read q fs.
Proof.
  intros N. unfold file_read, file_write. cbn [find fst snd].
  destruct (String.eqb_spec path q) as [->|_]; [congruence|reflexivity].
Qed.

(** A block that raised changes at most the path of the file it left. *)
Lemma file_read_left_behind (w : world) (path : string) (fs : files) :
  file_read path (left_behind w fs) = file_read path fs \/
  exists content,
    temp_file_left w = Some (path, content) /\
    file_read path (left_behind w fs) = Some content.
Proof.
  unfold left_behind. destruct (temp_file_left w) as [[p c]|]; [|now left].
  destruct (String.eqb_spec path p) as [->|N].
  - right. exists c. split; [reflexivity|apply file_read_write].
  - left. now apply file_read_write_other.
Qed.

Section Transcription.

Variable cast_invalid : float32 -> Z.

(** What [transcribe_file] does once the temporary file is written. *)
Lemma transcribe_file_inr (w : world) (audio_data : bytes) (fs : files)
    (temp_path : string) :
  named_temporary_file w = inr temp_path ->
  transcribe_file w audio_data fs
  = (inr match model_transcribe w (Some audio_data) with
         | inr t =>
             {| success := true;
                text := strip (str_join (str " ") (map strip (segment_texts t)));
                error := None;
                language := Some (info_language t);
                duration := Some (info_duration t) |}
         | inl e => failure (str_exn e)
         end,
     if os_unlink_ok w
     then file_unlink temp_path (file_write temp_path audio_data fs)
     else file_write temp_path audio_data fs,
     [EvTempWrite temp_path audio_data; EvTranscribe temp_path;
      EvUnlink temp_path]).
Proof.
  intros Et. unfold transcribe_file. rewrite Et, file_read_write. reflexivity.
Qed.

(** The four ways through [transcribe_audio]. *)
Lemma transcribe_audio_cases (w : world) (audio_data : bytes) (fs : files) :
  (exists e, load_model w = inl e /\
             transcribe_audio cast_invalid w audio_data fs = (inl e, fs, []))
  \/ (load_model w = inr tt /\
      format_is_wav (detect_audio_format audio_data) = true /\
      transcribe_audio cast_invalid w audio_data fs
      = transcribe_file w audio_data fs)
  \/ (exists e,
        load_model w = inr tt /\
        format_is_wav (detect_audio_format audio_data) = false /\
        convert_to_wav cast_invalid w audio_data (detect_audio_format audio_data)
          = inl e /\
        transcribe_audio cast_invalid w audio_data fs
        = (inr (failure ("Audio conversion failed: " ++ str_exn e)%string), fs,
           [EvConvert audio_data (detect_audio_format audio_data)]))
  \/ (exists wav,
        load_model w = inr tt /\
        format_is_wav (detect_audio_format audio_data) = false /\
        convert_to_wav cast_invalid w audio_data (detect_audio_format audio_data)
          = inr wav /\
        transcribe_audio cast_invalid w audio_data fs
        = (fst (fst (transcribe_file w wav fs)),
           snd (fst (transcribe_file w wav fs)),
           EvConvert audio_data (detect_audio_format audio_data)
             :: snd (transcribe_file w wav fs))).
Proof.
  unfold transcribe_audio.
  destruct (load_model w) as [e|[]]; [left; eauto|right].
  destruct (format_is_wav (detect_audio_format audio_data)); cbn [negb];
    [left; auto|right].
  destruct (convert_to_wav cast_invalid w audio_data
              (detect_audio_format audio_data)) as [e|wav];
    [left; eauto|right].
  exists wav. repeat split.
  now destruct (transcribe_file w wav fs) as [[r fs'] tr].
Qed.

Lemma transcribe_file_cases (w : world) (audio_data : bytes) (fs : files) :
  (exists e, named_temporary_file w = inl e /\
             transcribe_file w audio_data fs = (inl e, left_behind w fs, []))
  \/ (exists temp_path r,
        named_temporary_file w = inr temp_path /\
        transcribe_file w audio_data fs
        = (inr r,
           if os_unlink_ok w
           then file_unlink temp_path (file_write temp_path audio_data fs)
           else file_write temp_path audio_data fs,
           [EvTempWrite temp_path audio_data; EvTranscribe temp_path;
            EvUnlink temp_path]) /\
        ((success r = true /\ error r = None /\
          (exists l, language r = Some l) /\ (exists d, duration r = Some d) /\
          strip (text r) = text r /\
          starts_with_space (text r) = false /\
          ends_with_space (text r) = false)
         \/ (exists e, model_transcribe w (Some audio_data) = inl e /\
                       r = failure (str_exn e)))).
Proof.
  destruct (named_temporary_file w) as [e|temp_path] eqn:Et.
  - left. exists e. split; [reflexivity|]. unfold transcribe_file. now rewrite Et.
  - right. exists temp_path. eexists. split; [reflexivity|].
    split; [apply (transcribe_file_inr _ _ _ _ Et)|].
    destruct (model_transcribe w (Some audio_data)) as [e|t].
    + right. eauto.
    + left. cbn [success error language duration text].
      destruct (strip_trimmed (str_join (str " ") (map strip (segment_texts t))))
        as (S & E & I).
      repeat split; eauto.
Qed.

(** The keys of the dictionary [transcribe_audio] returns. *)
Lemma transcribe_audio_response (w : world) (audio_data : bytes)
    (fs fs' : files) (r : response) (tr : list event) :
  transcribe_audio cast_invalid w audio_data fs = (inr r, fs', tr) ->
  (success r = true ->
     error r = None /\
     (exists l, language r = Some l) /\ (exists d, duration r = Some d) /\
     strip (text r) = text r /\
     starts_with_space (text r) = false /\ ends_with_space (text r) = false) /\
  (success r = false ->
     text r = [] /\ (exists message, error r = Some message) /\
     language r = None /\ duration r = None).
Proof.
  assert (F : forall data temp_fs temp_tr,
             transcribe_file w data fs = (inr r, temp_fs, temp_tr) ->
             (success r = true ->
              error r = None /\
              (exists l, language r = Some l) /\ (exists d, duration r = Some d) /\
              strip (text r) = text r /\
              starts_with_space (text r) = false /\
              ends_with_space (text r) = false) /\
             (success r = false ->
              text r = [] /\ (exists message, error r = Some message) /\
              language r = None /\ duration r = None)).
  { intros data temp_fs temp_tr E.
    destruct (transcribe_file_cases w data fs)
      as [(e & _ & E')|(p & r' & _ & E' & Hr)]; [congruence|].
    assert (r' = r) by congruence. subst r'.
    destruct Hr as [(S & Hs)|(e & _ & ->)].
    - split; [intros _; exact Hs|congruence].
    - split; [discriminate|]. intros _. cbn. eauto. }
  intros E.
  destruct (transcribe_audio_cases w audio_data fs)
    as [(e & _ & E')|[(_ & _ & E')|[(e & _ & _ & _ & E')|(wav & _ & _ & _ & E')]]];
    rewrite E' in E.
  - discriminate E.
  - eapply F; eassumption.
  - injection E as <- _ _. split; [discriminate|]. intros _. cbn. eauto.
  - destruct (transcribe_file w wav fs) as [[r0 fs0] tr0] eqn:T.
    cbn [fst snd] in E. injection E as -> _ _. eapply F. eassumption.
Qed.

(** X7. Every dictionary [transcribe_audio] returns has the keys of its
    kind: a success carries no [error], a language, a duration, and a text
    that [strip] leaves as it is, with no white space (in the sense of
    [str.isspace]) at either end; a failure carries an error message, the
    empty text, and neither language nor duration. *)
Theorem response_shape (w : world) (audio_data : bytes) (fs fs' : files)
    (r : response) (tr : list event) :
  transcribe_audio cast_invalid w audio_data fs = (inr r, fs', tr) ->
  (success r = true ->
     error r = None /\
     (exists l, language r = Some l) /\ (exists d, duration r = Some d) /\
     strip (text r) = text r /\
     starts_with_space (text r) = false /\ ends_with_space (text r) = false) /\
  (success r = false ->
     text r = [] /\ (exists message, error r = Some message) /\
     language r = None /\ duration r = None).
Proof. apply transcribe_audio_response. Qed.

(** Where [transcribe_audio] touches the temporary directory: not at all;
    or by a [with] block that raises, leaving at most the file it created;
    or by one file that holds RIFF data, is handed to the model and is then
    unlinked. *)
Lemma transcribe_audio_effects (w : world) (audio_data : bytes)
    (fs fs' : files) (res : result response) (tr : list event) :
  transcribe_audio cast_invalid w audio_data fs = (res, fs', tr) ->
  (fs' = fs /\
   (tr = [] \/ tr = [EvConvert audio_data (detect_audio_format audio_data)]) /\
   ((exists e, res = inl e /\ load_model w = inl e) \/ exists r, res = inr r))
  \/ (exists e,
        load_model w = inr tt /\ named_temporary_file w = inl e /\
        res = inl e /\ fs' = left_behind w fs /\
        (tr = [] \/ tr = [EvConvert audio_data (detect_audio_format audio_data)]))
  \/ (exists temp_path data pre r,
        named_temporary_file w = inr temp_path /\
        res = inr r /\
        (pre = [] \/ pre = [EvConvert audio_data (detect_audio_format audio_data)]) /\
        tr = pre ++ [EvTempWrite temp_path data; EvTranscribe temp_path;
                     EvUnlink temp_path] /\
        detect_audio_format data = Some "wav" /\
        fs' = if os_unlink_ok w
              then file_unlink temp_path (file_write temp_path data fs)
              else file_write temp_path data fs).
Proof.
  intros E.
  destruct (transcribe_audio_cases w audio_data fs)
    as [(e & Hl & E')|[(Hl & Hw & E')|[(e & _ & _ & _ & E')|(wav & Hl & _ & Hc & E')]]];
    rewrite E' in E.
  - injection E as <- <- <-. left. eauto 8.
  - destruct (transcribe_file_cases w audio_data fs)
      as [(e & Hp & T)|(p & r & Hp & T & _)]; rewrite T in E;
      injection E as <- <- <-.
    + right. left. exists e. repeat split; auto.
    + right. right. exists p, audio_data, [], r. repeat split; auto.
      unfold format_is_wav in Hw.
      destruct (detect_audio_format audio_data) as [f|]; [|discriminate Hw].
      apply String.eqb_eq in Hw. now subst f.
  - injection E as <- <- <-. left. eauto 8.
  - destruct (transcribe_file_cases w wav fs)
      as [(e & Hp & T)|(p & r & Hp & T & _)]; rewrite T in E; cbn [fst snd] in E;
      injection E as <- <- <-.
    + right. left. exists e. repeat split; auto.
    + right. right.
      exists p, wav, [EvConvert audio_data (detect_audio_format audio_data)], r.
      repeat split; auto. apply (convert_to_wav_detect _ _ _ _ _ Hc).
Qed.

(** X8. When [os.unlink] succeeds, a temporary file that was written and
    closed is gone once [transcribe_audio] is over, whether the model
    answered or raised.  No other path of the directory reads differently
    from before, but for the file left by a [with] block that raised, for
    which [os.unlink] is never called. *)
Theorem temp_file_removed (w : world) (audio_data : bytes) (fs fs' : files)
    (res : result response) (tr : list event) :
  transcribe_audio cast_invalid w audio_data fs = (res, fs', tr) ->
  os_unlink_ok w = true ->
  (forall temp_path data,
     In (EvTempWrite temp_path data) tr -> file_read temp_path fs' = None) /\
  (forall path,
     named_temporary_file w <> inr path ->
     file_read path fs' = file_read path fs \/
     exists e content,
       res = inl e /\ temp_file_left w = Some (path, content) /\
       file_read path fs' = Some content).
Proof.
  intros E U.
  destruct (transcribe_audio_effects _ _ _ _ _ _ E)
    as [(-> & Htr & _)|[(e & _ & _ & -> & -> & Htr)
                       |(p & data & pre & r & Hp & _ & Hpre & -> & _ & ->)]].
  - split; [|now left]. intros q d I.
    destruct Htr as [->| ->]; cbn in I; intuition discriminate.
  - split.
    + intros q d I. destruct Htr as [->| ->]; cbn in I; intuition discriminate.
    + intros q _. destruct (file_read_left_behind w q fs) as [H|(c & Hc & H)];
        [now left|right; eauto].
  - rewrite U. split.
    + intros q d I. apply in_app_or in I.
      assert (q = p) as ->.
      { destruct I as [I|I].
        - destruct Hpre as [-> | ->]; cbn in I; intuition discriminate.
        - cbn in I. destruct I as [I|[I|[I|[]]]]; congruence. }
      rewrite file_read_unlink, String.eqb_refl. reflexivity.
    + intros q N. left. rewrite file_read_unlink.
      destruct (String.eqb_spec q p) as [->|Nq]; [congruence|].
      now apply file_read_write_other.
Qed.

(** X9. A failing [os.unlink] is swallowed: the response and the calls made
    are those of a run in which it succeeds, and the temporary file stays
    behind, holding the audio that was handed to the model. *)
Theorem unlink_failure_is_swallowed (w : world) (audio_data : bytes)
    (fs : files) (ok : bool) :
  fst (fst (transcribe_audio cast_invalid (with_unlink ok w) audio_data fs))
  = fst (fst (transcribe_audio cast_invalid w audio_data fs)) /\
  snd (transcribe_audio cast_invalid (with_unlink ok w) audio_data fs)
  = snd (transcribe_audio cast_invalid w audio_data fs) /\
  (os_unlink_ok w = false ->
   forall temp_path data,
     In (EvTempWrite temp_path data)
        (snd (transcribe_audio cast_invalid w audio_data fs)) ->
     file_read temp_path
       (snd (fst (transcribe_audio cast_invalid w audio_data fs)))
     = Some data).
Proof.
  assert (T : forall data,
             fst (fst (transcribe_file (with_unlink ok w) data fs))
             = fst (fst (transcribe_file w data fs)) /\
             snd (transcribe_file (with_unlink ok w) data fs)
             = snd (transcribe_file w data fs)).
  { intros data. unfold transcribe_file. cbn [with_unlink named_temporary_file
      model_transcribe os_unlink_ok].
    destruct (named_temporary_file w); split; reflexivity. }
  split; [|split].
  - unfold transcribe_audio. cbn [with_unlink load_model].
    destruct (load_model w); [reflexivity|].
    change (convert_to_wav cast_invalid (with_unlink ok w))
      with (convert_to_wav cast_invalid w).
    destruct (negb _); [|apply T].
    destruct (convert_to_wav _ _ _ _) as [e|wav]; [reflexivity|].
    pose proof (proj1 (T wav)) as T1.
    destruct (transcribe_file (with_unlink ok w) wav fs) as [[r1 f1] t1].
    destruct (transcribe_file w wav fs) as [[r2 f2] t2]. exact T1.
  - unfold transcribe_audio. cbn [with_unlink load_model].
    destruct (load_model w); [reflexivity|].
    change (convert_to_wav cast_invalid (with_unlink ok w))
      with (convert_to_wav cast_invalid w).
    destruct (negb _); [|apply T].
    destruct (convert_to_wav _ _ _ _) as [e|wav]; [reflexivity|].
    pose proof (proj2 (T wav)) as T2.
    destruct (transcribe_file (with_unlink ok w) wav fs) as [[r1 f1] t1].
    destruct (transcribe_file w wav fs) as [[r2 f2] t2]. cbn [snd] in *.
    now rewrite T2.
  - intros U q d.
    destruct (transcribe_audio cast_invalid w audio_data fs) as [[res fs'] tr] eqn:E.
    cbn [fst snd]. intros I.
    destruct (transcribe_audio_effects _ _ _ _ _ _ E)
      as [(_ & Htr & _)|[(e & _ & _ & _ & _ & Htr)
                        |(p & data & pre & r & Hp & _ & Hpre & -> & _ & ->)]].
    + destruct Htr as [->| ->]; cbn in I; intuition discriminate.
    + destruct Htr as [->| ->]; cbn in I; intuition discriminate.
    + rewrite U. apply in_app_or in I.
      assert (q = p /\ d = data) as [-> ->].
      { destruct I as [I|I].
        - destruct Hpre as [-> | ->]; cbn in I; intuition discriminate.
        - cbn in I. destruct I as [I|[I|[I|[]]]]; try discriminate I.
          injection I as <- <-. auto. }
      apply file_read_write.
Qed.

(** X10. The model is only ever run on a temporary file that holds RIFF
    data, written just before, and the removal of that file is always
    attempted afterwards. *)
Theorem model_reads_wav_only (w : world) (audio_data : bytes) (fs fs' : files)
    (res : result response) (tr : list event) (temp_path : string) :
  transcribe_audio cast_invalid w audio_data fs = (res, fs', tr) ->
  In (EvTranscribe temp_path) tr ->
  exists data pre,
    tr = pre ++ [EvTempWrite temp_path data; EvTranscribe temp_path;
                 EvUnlink temp_path] /\
    detect_audio_format data = Some "wav" /\
    (data = audio_data \/
     convert_to_wav cast_invalid w audio_data (detect_audio_format audio_data)
     = inr data).
Proof.
  intros E I.
  destruct (transcribe_audio_cases w audio_data fs)
    as [(e & _ & E')|[(_ & Hw & E')|[(e & _ & _ & _ & E')|(wav & _ & _ & Hc & E')]]];
    rewrite E' in E.
  - injection E as <- <- <-. destruct I.
  - destruct (transcribe_file_cases w audio_data fs)
      as [(e & _ & T)|(p & r & Hp & T & _)]; rewrite T in E;
      injection E as <- <- <-.
    + destruct I.
    + cbn in I. destruct I as [I|[I|[I|[]]]]; try discriminate I.
      injection I as ->. exists audio_data, []. repeat split; auto.
      unfold format_is_wav in Hw.
      destruct (detect_audio_format audio_data) as [f|]; [|discriminate Hw].
      apply String.eqb_eq in Hw. now subst f.
  - injection E as <- <- <-. cbn in I. intuition discriminate.
  - destruct (transcribe_file_cases w wav fs)
      as [(e & _ & T)|(p & r & Hp & T & _)]; rewrite T in E; cbn [fst snd] in E;
      injection E as <- <- <-.
    + cbn in I. intuition discriminate.
    + cbn in I. destruct I as [I|[I|[I|[I|[]]]]]; try discriminate I.
      injection I as ->.
      exists wav, [EvConvert audio_data (detect_audio_format audio_data)].
      repeat split; auto. apply (convert_to_wav_detect _ _ _ _ _ Hc).
Qed.

(** An exception of [transcribe_audio] comes from [load_model], which
    leaves the files alone, or from the [with] block of the temporary
    file, which may leave the file it created; the model is not run and no
    unlink is attempted. *)
Lemma transcribe_audio_inl (w : world) (audio_data : bytes) (fs fs' : files)
    (e : exn) (tr : list event) :
  transcribe_audio cast_invalid w audio_data fs = (inl e, fs', tr) ->
  (tr = [] \/ tr = [EvConvert audio_data (detect_audio_format audio_data)]) /\
  ((load_model w = inl e /\ fs' = fs) \/
   (load_model w = inr tt /\ named_temporary_file w = inl e /\
    fs' = left_behind w fs /\
    (format_is_wav (detect_audio_format audio_data) = true \/
     exists wav,
       convert_to_wav cast_invalid w audio_data (detect_audio_format audio_data)
       = inr wav))).
Proof.
  intros E.
  destruct (transcribe_audio_cases w audio_data fs)
    as [(e' & Hl & E')|[(Hl & Hw & E')|[(e' & _ & _ & _ & E')|(wav & Hl & _ & Hc & E')]]];
    rewrite E' in E.
  - injection E as <- <- <-. auto.
  - destruct (transcribe_file_cases w audio_data fs)
      as [(e' & Hp & T)|(p & r & _ & T & _)]; rewrite T in E;
      [|discriminate E].
    injection E as <- <- <-. auto 7.
  - discriminate E.
  - destruct (transcribe_file_cases w wav fs)
      as [(e' & Hp & T)|(p & r & _ & T & _)]; rewrite T in E; cbn [fst snd] in E;
      [|discriminate E].
    injection E as <- <- <-. split; [auto|]. right. eauto 8.
Qed.

(** X11. [transcribe_audio] raises exactly when [load_model] raises or
    when the [with] block that creates, writes and closes the temporary
    file raises; a failure of the decoder or of the model never reaches
    the caller as an exception.  When it raises, the model was not run and
    no unlink was attempted: the files are as before, but for the file a
    raising block had already created, which stays. *)
Theorem transcribe_audio_raises (w : world) (audio_data : bytes) (fs : files)
    (e : exn) :
  (fst (fst (transcribe_audio cast_invalid w audio_data fs)) = inl e <->
   load_model w = inl e \/
   (load_model w = inr tt /\ named_temporary_file w = inl e /\
    (format_is_wav (detect_audio_format audio_data) = true \/
     exists wav,
       convert_to_wav cast_invalid w audio_data (detect_audio_format audio_data)
       = inr wav))) /\
  (fst (fst (transcribe_audio cast_invalid w audio_data fs)) = inl e ->
   (forall event,
      In event (snd (transcribe_audio cast_invalid w audio_data fs)) ->
      event = EvConvert audio_data (detect_audio_format audio_data)) /\
   snd (fst (transcribe_audio cast_invalid w audio_data fs))
   = match load_model w with
     | inl _ => fs
     | inr _ => left_behind w fs
     end).
Proof.
  destruct (transcribe_audio cast_invalid w audio_data fs) as [[res fs'] tr] eqn:E.
  cbn [fst snd]. split.
  - split.
    + intros ->. destruct (transcribe_audio_inl _ _ _ _ _ _ E)
        as (_ & [(Hl & _)|(Hl & Hp & _ & Hw)]); auto.
    + intros H.
      destruct (transcribe_audio_cases w audio_data fs)
        as [(e' & Hl & E')|[(Hl & Hw & E')|[(e' & Hl & Hw & Hc & E')|(wav & Hl & Hw & Hc & E')]]];
        rewrite E' in E.
      * injection E as <- _ _.
        destruct H as [H|(H & _)]; congruence.
      * destruct (transcribe_file_cases w audio_data fs)
          as [(e' & Hp & T)|(p & r & Hp & T & _)]; rewrite T in E;
          injection E as <- _ _; destruct H as [H|(_ & H & _)]; congruence.
      * destruct H as [H|(_ & _ & [H|(wav & H)])]; congruence.
      * destruct (transcribe_file_cases w wav fs)
          as [(e' & Hp & T)|(p & r & Hp & T & _)]; rewrite T in E;
          cbn [fst snd] in E; injection E as <- _ _;
          destruct H as [H|(_ & H & _)]; congruence.
  - intros ->. destruct (transcribe_audio_inl _ _ _ _ _ _ E)
      as (Htr & [(Hl & ->)|(Hl & _ & -> & _)]); rewrite Hl.
    + split; [|reflexivity]. intros ev I.
      destruct Htr as [->| ->]; cbn in I; intuition.
    + split; [|reflexivity]. intros ev I.
      destruct Htr as [->| ->]; cbn in I; intuition.
Qed.

End Transcription.

Lemma response_shape_witness :
  match fst (fst (transcribe_audio cast_zero
                    (sample_world [[py_quarter]; [py_one]]) (b "OggS") [])) with
  | inr r => success r = true /\ text r = str "hello world" /\
             strip (text r) = text r
  | inl _ => False
  end.
Proof.
  destruct (transcribe_audio cast_zero (sample_world [[py_quarter]; [py_one]])
              (b "OggS") []) as [[[e|r] fs'] tr] eqn:E; cbn [fst].
  - vm_compute in E. discriminate E.
  - destruct (response_shape cast_zero _ _ _ _ _ _ E) as (S & _).
    vm_compute in E. injection E as <- _ _.
    split; [reflexivity|]. split; [reflexivity|].
    destruct (S eq_refl) as (_ & _ & _ & I & _). exact I.
Defined.

Lemma temp_file_removed_witness :
  file_read "/tmp/tmpq1w2e3.wav"
    (snd (fst (transcribe_audio cast_zero (sample_world [[py_quarter]; [py_one]])
                 (b "OggS") [("/tmp/kept.wav", b "RIFF")]))) = None /\
  file_read "/tmp/kept.wav"
    (snd (fst (transcribe_audio cast_zero (sample_world [[py_quarter]; [py_one]])
                 (b "OggS") [("/tmp/kept.wav", b "RIFF")]))) = Some (b "RIFF").
Proof.
  destruct (transcribe_audio cast_zero (sample_world [[py_quarter]; [py_one]])
              (b "OggS") [("/tmp/kept.wav", b "RIFF")]) as [[res fs'] tr] eqn:E.
  destruct (temp_file_removed cast_zero _ _ _ _ _ _ E eq_refl) as (G & K).
  cbn [fst snd]. split.
  - vm_compute in E. injection E as _ _ <-. eapply G. right. left. reflexivity.
  - destruct (K "/tmp/kept.wav") as [H|(e & c & _ & L & _)];
      [discriminate|now rewrite H|discriminate L].
Defined.

(** * Polarity *)

Lemma binary_round_aux_opp (prec emax : Z) (s : bool) (m e : Z) (l : location) :
  binary_round_aux prec emax (negb s) m e l
  = SFopp (binary_round_aux prec emax s m e l).
Proof.
  unfold binary_round_aux.
  destruct (shr_fexp prec emax m e l) as [mrs e'].
  destruct (shr_fexp prec emax _ e' loc_Exact) as [mrs' e''].
  destruct (shr_m mrs'); [reflexivity| |reflexivity].
  now destruct (e'' <=? emax - prec).
Qed.

Lemma f32_of_float_opp (x : py_float) :
  f32_of_float (SFopp x) = SFopp (f32_of_float x).
Proof.
  destruct x as [s|s| |s m e]; try reflexivity.
  cbn [SFopp f32_of_float]. unfold binary_round.
  destruct (shl_align m e _) as [mz ez]. apply binary_round_aux_opp.
Qed.

Lemma f32_div_opp (x y : float32) :
  f32_div (SFopp x) y = SFopp (f32_div x y).
Proof.
  unfold f32_div.
  destruct x as [sx|sx| |sx mx ex], y as [sy|sy| |sy my ey]; cbn [SFopp SFdiv];
    try reflexivity; try (now destruct sx, sy).
  destruct (SFdiv_core_binary prec32 emax32 (Z.pos mx) ex (Z.pos my) ey)
    as [[mz ez] lz].
  rewrite <- binary_round_aux_opp. now destruct sx, sy.
Qed.

Lemma f32_mul_opp (x y : float32) :
  f32_mul (SFopp x) y = SFopp (f32_mul x y).
Proof.
  unfold f32_mul.
  destruct x as [sx|sx| |sx mx ex], y as [sy|sy| |sy my ey]; cbn [SFopp SFmul];
    try reflexivity; try (now destruct sx, sy).
  rewrite <- binary_round_aux_opp. now destruct sx, sy.
Qed.

Lemma SFabs_opp (x : float32) : SFabs (SFopp x) = SFabs x.
Proof. now destruct x. Qed.

Lemma peak_normalize_opp (samples : list float32) :
  peak_normalize (map SFopp samples)
  = match peak_normalize samples with
    | inr normalized => inr (map SFopp normalized)
    | inl e => inl e
    end.
Proof.
  unfold peak_normalize.
  assert (A : np_abs (map SFopp samples) = np_abs samples).
  { unfold np_abs. rewrite map_map. apply map_ext. apply SFabs_opp. }
  rewrite A. destruct (np_max (np_abs samples)) as [e|max_val]; [reflexivity|].
  cbn [bind]. destruct (f32_gt max_val f32_zero); unfold ret; [|reflexivity].
  f_equal. rewrite !map_map. apply map_ext. intros x. apply f32_div_opp.
Qed.

Lemma astype_int16_opp (cast_invalid : float32 -> Z) (x : float32) :
  f32_finite x = true -> (SFmag x <= 32767)%Q ->
  astype_int16 cast_invalid (SFopp x) = - astype_int16 cast_invalid x.
Proof.
  intros Hf Hm.
  destruct (f32_trunc_bound x 32767 Hf Hm) as (z & E & Hz).
  assert (E' : f32_trunc (SFopp x) = Some (- z)).
  { destruct x as [s|s| |s m e]; try discriminate Hf; cbn [SFopp f32_trunc] in *.
    - injection E as <-. reflexivity.
    - injection E as <-. f_equal. destruct s; cbn [negb]; lia. }
  unfold astype_int16. rewrite E, E'.
  replace (-32768 <=? z) with true by (symmetry; apply Z.leb_le; lia).
  replace (z <=? 32767) with true by (symmetry; apply Z.leb_le; lia).
  replace (-32768 <=? - z) with true by (symmetry; apply Z.leb_le; lia).
  replace (- z <=? 32767) with true by (symmetry; apply Z.leb_le; lia).
  reflexivity.
Qed.

(** X12. Inverting the polarity of the input inverts the output: when the
    decoded samples are finite as float32, negating each of them negates
    each 16-bit sample, and an empty input raises the same error. *)
Theorem polarity_inversion (cast_invalid : float32 -> Z)
    (samples : list py_float) :
  finite_cells (np_array_float32 samples) ->
  normalize cast_invalid (map SFopp samples)
  = match normalize cast_invalid samples with
    | inr samples_int16 => inr (map Z.opp samples_int16)
    | inl e => inl e
    end.
Proof.
  intros Hf. destruct samples as [|x samples]; [reflexivity|].
  assert (Hne : np_array_float32 (x :: samples) <> []) by discriminate.
  destruct (peak_normalize_finite _ Hne Hf)
    as (peak & normalized & _ & _ & _ & P & _ & _ & Hn).
  rewrite (normalize_inr_quantize cast_invalid (x :: samples) normalized)
    by (discriminate || exact P).
  assert (A : np_array_float32 (map SFopp (x :: samples))
              = map SFopp (np_array_float32 (x :: samples))).
  { unfold np_array_float32. rewrite !map_map. apply map_ext.
    apply f32_of_float_opp. }
  rewrite (normalize_inr_quantize cast_invalid (map SFopp (x :: samples))
             (map SFopp normalized)).
  - f_equal. unfold quantize. rewrite !map_map. apply map_ext_in.
    intros s Hs. rewrite Forall_forall in Hn. destruct (Hn s Hs) as (Fs & Ms).
    destruct (f32_mul_32767_le s Fs Ms) as (Fm & Mm).
    rewrite f32_mul_opp. now apply astype_int16_opp.
  - discriminate.
  - rewrite A, peak_normalize_opp, P. reflexivity.
Qed.

Lemma polarity_inversion_witness :
  normalize cast_zero (map SFopp [py_quarter; py_one]) = inr [-8191; -32767].
Proof.
  rewrite (polarity_inversion cast_zero [py_quarter; py_one]);
    [reflexivity|].
  repeat constructor.
Defined.

(** * The HTTP handler *)

Lemma unlink_failure_is_swallowed_witness :
  exists data,
    file_read "/tmp/tmpq1w2e3.wav"
      (snd (fst (transcribe_audio cast_zero no_unlink_world (b "OggS") [])))
    = Some data.
Proof.
  eexists.
  eapply (proj2 (proj2 (unlink_failure_is_swallowed cast_zero no_unlink_world
                          (b "OggS") [] true)) eq_refl).
  vm_compute. right. left. reflexivity.
Defined.

Lemma transcribe_audio_raises_witness :
  snd (fst (transcribe_audio cast_zero failing_write_world (b "RIFF")
              [("/tmp/kept.wav", b "RIFF")]))
  = [("/tmp/tmpq1w2e3.wav", b "RI"); ("/tmp/kept.wav", b "RIFF")].
Proof.
  apply (proj2 (proj2 (transcribe_audio_raises cast_zero failing_write_world
                         (b "RIFF") [("/tmp/kept.wav", b "RIFF")]
                         (ExternalError "[Errno 28] No space left on device"))
                  eq_refl)).
Defined.

Lemma model_reads_wav_only_witness :
  exists data pre,
    snd (transcribe_audio cast_zero (sample_world [[py_quarter]; [py_one]])
           (b "OggS") [])
    = pre ++ [EvTempWrite "/tmp/tmpq1w2e3.wav" data;
              EvTranscribe "/tmp/tmpq1w2e3.wav";
              EvUnlink "/tmp/tmpq1w2e3.wav"] /\
    detect_audio_format data = Some "wav".
Proof.
  destruct (transcribe_audio cast_zero (sample_world [[py_quarter]; [py_one]])
              (b "OggS") []) as [[res fs'] tr] eqn:E.
  assert (I : In (EvTranscribe "/tmp/tmpq1w2e3.wav") tr).
  { pose proof E as E'. vm_compute in E'. injection E' as _ _ <-.
    right. right. left. reflexivity. }
  destruct (model_reads_wav_only cast_zero _ _ _ _ _ _ _ E I)
    as (data & pre & Htr & D & _).
  exists data, pre. cbn [snd]. split; assumption.
Defined.

Lemma prefix_app (needle rest : string) :
  String.prefix needle (needle ++ rest) = true.
Proof.
  induction needle as [|c needle IH]; cbn.
  - now destruct rest.
  - destruct (ascii_dec c c); [exact IH|congruence].
Qed.

Lemma str_contains_app (needle before rest : string) :
  str_contains needle (before ++ needle ++ rest) = true.
Proof.
  induction before as [|c before IH].
  - change ("" ++ needle ++ rest)%string with (needle ++ rest)%string.
    pose proof (prefix_app needle rest) as P.
    destruct (needle ++ rest)%string; cbn [str_contains]; now rewrite P.
  - change (String c before ++ needle ++ rest)%string
      with (String c (before ++ needle ++ rest)).
    cbn [str_contains]. rewrite IH. apply orb_true_r.
Qed.

(** [rfile.read] on a length that is not negative sees no more than that
    many bytes of what the connection delivers. *)
Lemma rfile_read_firstn (read_raises : Z -> option exn) (n : Z) (data : bytes) :
  0 <= n ->
  rfile_read read_raises n (firstn (Z.to_nat n) data)
  = rfile_read read_raises n data.
Proof.
  intros N. unfold rfile_read.
  destruct (Z.ltb_spec n (-1)) as [L|_]; [lia|].
  destruct (Z.eqb_spec n (-1)) as [L|_]; [lia|].
  destruct (read_raises n); [reflexivity|].
  now rewrite firstn_firstn, Nat.min_id.
Qed.

(** A length of 0 is served with no byte, when it is served. *)
Lemma rfile_read_0 (read_raises : Z -> option exn) (rfile audio_data : bytes) :
  rfile_read read_raises 0 rfile = inr audio_data -> audio_data = [].
Proof.
  unfold rfile_read. cbn [Z.ltb Z.eqb Z.compare Z.to_nat firstn].
  destruct (read_raises 0); [discriminate|]. unfold ret. congruence.
Qed.

Section Handler.

Variable cast_invalid : float32 -> Z.

(** The ways through [do_POST]: a 404, a 400, an exception before the
    audio is in hand, or the relay of what [transcribe_audio] gives. *)
Lemma do_POST_cases (w : world) (req : request) (fs : files) :
  (str_contains "/transcribe" (req_path req) = false /\
   do_POST cast_invalid w req fs = (send_json (JsonError "Not found") 404, fs, []))
  \/ (str_contains "/transcribe" (req_path req) = true /\
      exists message,
        do_POST cast_invalid w req fs
        = (send_json (JsonError message) 400, fs, []))
  \/ (str_contains "/transcribe" (req_path req) = true /\
      exists e,
        (req_content_length req = inl e \/ req_form_file req = inl e \/
         exists n,
           req_content_length req = inr n /\
           rfile_read (req_read_raises req) n (req_rfile req) = inl e) /\
        do_POST cast_invalid w req fs
        = (send_json (JsonError (str_exn e)) 500, fs, []))
  \/ (str_contains "/transcribe" (req_path req) = true /\
      exists n audio_data,
        req_content_length req = inr n /\ n <> 0 /\ audio_data <> [] /\
        (let content_type :=
           match req_content_type req with Some t => t | None => "" end in
         if str_contains "multipart/form-data" content_type
         then req_form_file req = inr (Some audio_data)
         else rfile_read (req_read_raises req) n (req_rfile req)
              = inr audio_data) /\
        do_POST cast_invalid w req fs
        = match transcribe_audio cast_invalid w audio_data fs with
          | (inr r, fs', tr) =>
              (send_json (JsonResult r) (if success r then 200 else 500),
               fs', tr)
          | (inl e, fs', tr) =>
              (send_json (JsonError (str_exn e)) 500, fs', tr)
          end).
Proof.
  unfold do_POST, do_POST_try.
  destruct (str_contains "/transcribe" (req_path req)); [right|left; auto].
  destruct (req_content_length req) as [e|n] eqn:Hn.
  { right. left. split; [reflexivity|]. exists e. auto. }
  destruct (Z.eqb_spec n 0) as [->|N].
  { left. split; [reflexivity|]. eexists. reflexivity. }
  cbv zeta.
  destruct (str_contains "multipart/form-data" _) eqn:M.
  - destruct (req_form_file req) as [e|[[|x audio_data]|]] eqn:F.
    + right. left. split; [reflexivity|]. exists e. auto.
    + left. split; [reflexivity|]. eexists. reflexivity.
    + right. right. split; [reflexivity|]. exists n, (x :: audio_data).
      split; [reflexivity|]. split; [exact N|]. split; [discriminate|].
      split; [reflexivity|].
      destruct (transcribe_audio cast_invalid w (x :: audio_data) fs)
        as [[[e|r] fs'] tr]; [reflexivity|]. now destruct (success r).
    + left. split; [reflexivity|]. eexists. reflexivity.
  - destruct (rfile_read (req_read_raises req) n (req_rfile req))
      as [e|[|x audio_data]] eqn:R.
    + right. left. split; [reflexivity|]. exists e. split; [|reflexivity].
      right. right. exists n. auto.
    + left. split; [reflexivity|]. eexists. reflexivity.
    + right. right. split; [reflexivity|]. exists n, (x :: audio_data).
      split; [reflexivity|]. split; [exact N|]. split; [discriminate|].
      split; [exact R|].
      destruct (transcribe_audio cast_invalid w (x :: audio_data) fs)
        as [[[e|r] fs'] tr]; [reflexivity|]. now destruct (success r).
Qed.

(** X13. [do_POST] answers 200 exactly when its body is a transcription with
    [success] true, which then has no [error] key; every other response is
    a 400, 404 or 500 whose body carries an error message, and a
    transcription result with [success] false is always sent as a 500. *)
Theorem do_POST_status (w : world) (req : request) (fs : files) :
  let resp := fst (fst (do_POST cast_invalid w req fs)) in
  (status resp = 200 /\
   exists r, body resp = Some (JsonResult r) /\ success r = true /\
             error r = None)
  \/ (In (status resp) [400; 404; 500] /\
      exists data message,
        body resp = Some data /\ json_get_error data = Some message /\
        forall r, data = JsonResult r -> success r = false /\ status resp = 500).
Proof.
  cbv zeta.
  destruct (do_POST_cases w req fs)
    as [(_ & E')|[(_ & m & E')|[(_ & e & _ & E')|(_ & n & a & _ & _ & _ & _ & E')]]];
    rewrite E'.
  - right. cbn. split; [auto|]. eexists _, _. repeat split; discriminate.
  - right. cbn. split; [auto|]. eexists _, _. repeat split; discriminate.
  - right. cbn. split; [auto|]. eexists _, _. repeat split; discriminate.
  - destruct (transcribe_audio cast_invalid w a fs) as [[[e|r] fs'] tr] eqn:E.
    { right. cbn. split; [auto|]. eexists _, _. repeat split; discriminate. }
    destruct (transcribe_audio_response _ _ _ _ _ _ _ E) as (St & Sf).
    destruct (success r) eqn:S; cbn [fst status body send_json].
    + left. split; [reflexivity|]. exists r.
      destruct (St eq_refl) as (He & _). auto.
    + right. split; [cbn; auto|].
      destruct (Sf eq_refl) as (_ & (message & He) & _).
      exists (JsonResult r), message. repeat split; auto; congruence.
Qed.

(** X14. A request answered with 400 or 404 was turned away before the
    model, the decoder or the temporary directory were touched. *)
Theorem rejected_request_has_no_effect (w : world) (req : request)
    (fs fs' : files) (resp : http_response) (tr : list event) :
  do_POST cast_invalid w req fs = (resp, fs', tr) ->
  status resp = 400 \/ status resp = 404 ->
  fs' = fs /\ tr = [].
Proof.
  intros E S.
  destruct (do_POST_cases w req fs)
    as [(_ & E')|[(_ & m & E')|[(_ & e & _ & E')|(_ & n & a & _ & _ & _ & _ & E')]]];
    rewrite E' in E.
  - injection E as _ <- <-. auto.
  - injection E as _ <- <-. auto.
  - injection E as _ <- <-. auto.
  - destruct (transcribe_audio cast_invalid w a fs) as [[[e|r] fs0] tr0].
    + injection E as <- _ _. cbn in S. destruct S as [S|S]; discriminate S.
    + injection E as <- _ _. cbn in S.
      destruct (success r), S as [S|S]; discriminate S.
Qed.

(** X15. A 500 whose body is a bare error message stands for an exception
    caught by [do_POST]: the message is the text of an exception raised by
    the [Content-Length] conversion, by [rfile.read], by the form parser or
    by [load_model], with the files as before, or by the [with] block of
    the temporary file, which may leave the file it created.  The model
    was not run and no unlink was attempted. *)
Theorem bare_error_500 (w : world) (req : request) (fs fs' : files)
    (resp : http_response) (tr : list event) (message : string) :
  do_POST cast_invalid w req fs = (resp, fs', tr) ->
  status resp = 500 ->
  body resp = Some (JsonError message) ->
  (forall event, In event tr -> exists data fmt, event = EvConvert data fmt) /\
  exists e,
    message = str_exn e /\
    ((fs' = fs /\
      (req_content_length req = inl e \/ req_form_file req = inl e \/
       (exists n,
          req_content_length req = inr n /\
          rfile_read (req_read_raises req) n (req_rfile req) = inl e) \/
       load_model w = inl e))
     \/ (named_temporary_file w = inl e /\ fs' = left_behind w fs)).
Proof.
  intros E S B.
  destruct (do_POST_cases w req fs)
    as [(_ & E')|[(_ & m & E')|[(_ & e & He & E')|(_ & n & a & _ & _ & _ & _ & E')]]];
    rewrite E' in E.
  - injection E as <- _ _. discriminate S.
  - injection E as <- _ _. discriminate S.
  - injection E as <- <- <-. injection B as <-.
    split; [intros ev []|].
    exists e. split; [reflexivity|]. left. split; [reflexivity|]. tauto.
  - destruct (transcribe_audio cast_invalid w a fs) as [[[e|r] fs0] tr0] eqn:T.
    + injection E as <- <- <-. injection B as <-.
      destruct (transcribe_audio_inl _ _ _ _ _ _ _ T)
        as (Htr & [(Hl & ->)|(_ & Hp & -> & _)]).
      * split.
        { intros ev I. destruct Htr as [->| ->]; cbn in I; [tauto|].
          destruct I as [<-|[]]. eauto. }
        exists e. split; [reflexivity|]. left. split; [reflexivity|]. tauto.
      * split.
        { intros ev I. destruct Htr as [->| ->]; cbn in I; [tauto|].
          destruct I as [<-|[]]. eauto. }
        exists e. split; [reflexivity|]. right. auto.
    + injection E as <- _ _. discriminate B.
Qed.

(** X16. [do_POST] answers 404 exactly when "/transcribe" occurs nowhere in
    the path: the route is matched as a substring, so a longer path that
    contains it is served as well. *)
Theorem do_POST_route (w : world) (req : request) (fs : files) :
  (status (fst (fst (do_POST cast_invalid w req fs))) = 404 <->
   str_contains "/transcribe" (req_path req) = false) /\
  (forall before rest : string,
     req_path req = (before ++ "/transcribe" ++ rest)%string ->
     status (fst (fst (do_POST cast_invalid w req fs))) <> 404).
Proof.
  assert (I : status (fst (fst (do_POST cast_invalid w req fs))) = 404 <->
              str_contains "/transcribe" (req_path req) = false).
  { destruct (do_POST_cases w req fs)
      as [(P & E')|[(P & m & E')|[(P & e & _ & E')|(P & n & a & _ & _ & _ & _ & E')]]];
      rewrite E', P.
    - split; reflexivity.
    - split; discriminate.
    - split; discriminate.
    - destruct (transcribe_audio cast_invalid w a fs) as [[[e|r] fs0] tr0];
        [|destruct (success r)]; split; discriminate. }
  split; [exact I|]. intros before rest P S. apply I in S.
  rewrite P, str_contains_app in S. discriminate S.
Qed.

(** X17. A raw body is read up to [Content-Length] and no further: bytes
    that follow on the connection do not change what [do_POST] does. *)
Theorem raw_body_is_cut (w : world) (req : request) (fs : files)
    (n : Z) (data : bytes) :
  req_content_length req = inr n ->
  0 <= n ->
  str_contains "multipart/form-data"
    (match req_content_type req with Some t => t | None => "" end) = false ->
  do_POST cast_invalid w (with_rfile data req) fs
  = do_POST cast_invalid w (with_rfile (firstn (Z.to_nat n) data) req) fs.
Proof.
  intros Hn N M. unfold do_POST, do_POST_try.
  cbn [with_rfile req_path req_content_type req_content_length req_rfile
       req_read_raises req_form_file].
  rewrite Hn, M. now rewrite rfile_read_firstn.
Qed.

(** X18. A raw POST whose body is read and cannot be converted is answered
    with a 500 that carries the failure dictionary of [transcribe_audio];
    the model is not run and nothing is written. *)
Theorem post_conversion_failure (w : world) (req : request) (fs : files)
    (n : Z) (audio_data : bytes) (e : exn) :
  str_contains "/transcribe" (req_path req) = true ->
  req_content_length req = inr n ->
  str_contains "multipart/form-data"
    (match req_content_type req with Some t => t | None => "" end) = false ->
  rfile_read (req_read_raises req) n (req_rfile req) = inr audio_data ->
  audio_data <> [] ->
  load_model w = inr tt ->
  detect_audio_format audio_data <> Some "wav" ->
  convert_to_wav cast_invalid w audio_data (detect_audio_format audio_data)
  = inl e ->
  do_POST cast_invalid w req fs
  = (send_json
       (JsonResult (failure ("Audio conversion failed: " ++ str_exn e))) 500,
     fs, [EvConvert audio_data (detect_audio_format audio_data)]).
Proof.
  intros P Hn M R A L D C.
  assert (N : n <> 0).
  { intros ->. apply A. exact (rfile_read_0 _ _ _ R). }
  unfold do_POST, do_POST_try. rewrite P, Hn, M, R.
  destruct (Z.eqb_spec n 0) as [?|_]; [contradiction|].
  destruct audio_data as [|x rest]; [congruence|].
  unfold transcribe_audio. rewrite L.
  assert (W : format_is_wav (detect_audio_format (x :: rest)) = false).
  { unfold format_is_wav. destruct (detect_audio_format (x :: rest)) as [f|];
      [|reflexivity].
    destruct (String.eqb_spec f "wav") as [->|]; [congruence|reflexivity]. }
  rewrite W. cbn [negb]. rewrite C. reflexivity.
Qed.


(** X20. Every response of the handler allows any origin, and every
    response with a body declares it as JSON. *)
Theorem cors_on_every_response (w : world) (req : request) (fs : files)
    (env : model_env) (whisper_model : option whisper) (path : string)
    (resp : http_response) :
  resp = do_OPTIONS \/ resp = do_GET env whisper_model path \/
  resp = fst (fst (do_POST cast_invalid w req fs)) ->
  In ("Access-Control-Allow-Origin", "*") (headers resp) /\
  (body resp <> None -> In ("Content-Type", "application/json") (headers resp)).
Proof.
  assert (S : forall data code,
             In ("Access-Control-Allow-Origin", "*") (headers (send_json data code))
             /\ (body (send_json data code) <> None ->
                 In ("Content-Type", "application/json")
                    (headers (send_json data code)))).
  { intros data code. cbn. auto. }
  intros [->|[->| ->]].
  - cbn. split; [auto|congruence].
  - unfold do_GET. destruct (String.eqb path "/health"); apply S.
  - destruct (do_POST_cases w req fs)
      as [(_ & E')|[(_ & m & E')|[(_ & e & _ & E')|(_ & n & a & _ & _ & _ & _ & E')]]];
      rewrite E'; try apply S.
    destruct (transcribe_audio cast_invalid w a fs) as [[[e|r] fs0] tr0];
      apply S.
Qed.

End Handler.

Lemma rejected_request_has_no_effect_witness :
  do_POST cast_zero (sample_world [[py_quarter]; [py_one]])
    (sample_request []) [("/tmp/kept.wav", b "RIFF")]
  = (send_json (JsonError "No audio data") 400, [("/tmp/kept.wav", b "RIFF")], []).
Proof.
  destruct (do_POST cast_zero (sample_world [[py_quarter]; [py_one]])
              (sample_request []) [("/tmp/kept.wav", b "RIFF")])
    as [[resp fs'] tr] eqn:E.
  assert (R : resp = send_json (JsonError "No audio data") 400).
  { pose proof E as E'. vm_compute in E'. injection E' as <- _ _. reflexivity. }
  destruct (rejected_request_has_no_effect cast_zero _ _ _ _ _ _ E)
    as [-> ->]; [left; rewrite R; reflexivity|].
  now rewrite R.
Defined.

Lemma bare_error_500_witness :
  exists e,
    "read length must be non-negative or -1" = str_exn e /\
    (([("/tmp/kept.wav", b "RIFF")] = [("/tmp/kept.wav", b "RIFF")] /\
      (req_content_length negative_length_request = inl e \/
       req_form_file negative_length_request = inl e \/
       (exists n,
          req_content_length negative_length_request = inr n /\
          rfile_read (req_read_raises negative_length_request) n
            (req_rfile negative_length_request) = inl e) \/
       load_model (sample_world []) = inl e))
     \/ (named_temporary_file (sample_world []) = inl e /\
         [("/tmp/kept.wav", b "RIFF")]
         = left_behind (sample_world []) [("/tmp/kept.wav", b "RIFF")])).
Proof.
  refine (proj2 (bare_error_500 cast_zero (sample_world [])
                   negative_length_request [("/tmp/kept.wav", b "RIFF")]
                   [("/tmp/kept.wav", b "RIFF")]
                   (send_json (JsonError
                      "read length must be non-negative or -1") 500)
                   [] _ _ _ _)); reflexivity.
Defined.

Lemma raw_body_is_cut_witness :
  do_POST cast_zero (sample_world [[py_quarter]; [py_one]])
    (with_rfile (b "OggS" ++ b "GET /health") (sample_request (b "OggS"))) []
  = do_POST cast_zero (sample_world [[py_quarter]; [py_one]])
      (with_rfile (b "OggS") (sample_request (b "OggS"))) [].
Proof.
  apply (raw_body_is_cut cast_zero (sample_world [[py_quarter]; [py_one]])
           (sample_request (b "OggS")) [] 4 (b "OggS" ++ b "GET /health"));
    [reflexivity|lia|reflexivity].
Defined.

Lemma do_POST_route_witness :
  status (fst (fst (do_POST cast_zero (sample_world [[py_quarter]; [py_one]])
                      (versioned_request (b "OggS")) []))) <> 404.
Proof.
  apply (proj2 (do_POST_route cast_zero (sample_world [[py_quarter]; [py_one]])
                  (versioned_request (b "OggS")) []) "/api" "/v2").
  reflexivity.
Defined.

Lemma post_conversion_failure_witness :
  do_POST cast_zero (sample_world []) (sample_request (b "OggS")) []
  = (send_json
       (JsonResult
          (failure "Audio conversion failed: No audio samples decoded")) 500,
     [], [EvConvert (b "OggS") (Some "ogg")]).
Proof.
  apply (post_conversion_failure cast_zero (sample_world [])
           (sample_request (b "OggS")) [] 4 (b "OggS")
           (ValueError "No audio samples decoded"));
    try reflexivity; discriminate.
Defined.


Lemma cors_on_every_response_witness :
  In ("Access-Control-Allow-Origin", "*") (headers do_OPTIONS).
Proof.
  apply (proj1 (cors_on_every_response cast_zero (sample_world [])
                  (sample_request []) [] sample_env None "/health" do_OPTIONS
                  (or_introl eq_refl))).
Defined.

(** * The model cache *)

(** X21. Once [load_model] has returned a model, the model is cached: every
    later call returns that same model and leaves the cache alone, whatever
    the libraries and the GPU have become. *)
Theorem load_model_cached (env : model_env) (whisper_model cached : option whisper)
    (m : whisper) :
  load_model_run env whisper_model = (Returned m, cached) ->
  cached = Some m /\
  forall env', load_model_run env' cached = (Returned m, cached).
Proof.
  unfold load_model_run. intros E.
  assert (C : cached = Some m).
  { destruct whisper_model as [m0|]; [congruence|].
    destruct (faster_whisper_importable env); [|discriminate E].
    destruct (torch_cuda env) as [e|[[|]|]]; [discriminate E| | |];
      match type of E with
      | match ?i with _ => _ end = _ => destruct i
      end; congruence. }
  split; [exact C|]. intros env'. now rewrite C.
Qed.

(** X22. A call of [load_model] that does not return a model leaves the
    cache empty, so the next call starts over.  The process exits, with
    code 1, exactly when an [ImportError] is raised by the import of the
    library or by the construction of the model; an exception of another
    kind, from torch or from the constructor, is raised to the caller. *)
Theorem load_model_failure (env : model_env) (whisper_model cached : option whisper)
    (out : outcome whisper) :
  load_model_run env whisper_model = (out, cached) ->
  (forall m, out <> Returned m) ->
  whisper_model = None /\ cached = None /\
  ((out = Exited 1 /\
    (faster_whisper_importable env = false \/
     exists m, whisper_model_init env m = InitImportError))
   \/ (exists e, out = Raised e /\ faster_whisper_importable env = true /\
                 (torch_cuda env = inl e \/
                  exists m, whisper_model_init env m = InitRaises e))).
Proof.
  unfold load_model_run. intros E N.
  destruct whisper_model as [m0|].
  { injection E as <- _. now destruct (N m0). }
  split; [reflexivity|].
  destruct (faster_whisper_importable env).
  2:{ injection E as <- <-. auto. }
  destruct (torch_cuda env) as [e|[[|]|]];
    [injection E as <- <-; split; [reflexivity|]; right; exists e; auto| | |];
    match type of E with
    | match whisper_model_init env ?m with _ => _ end = _ =>
        destruct (whisper_model_init env m) as [| |e] eqn:I;
        injection E as <- <-;
        [now destruct (N m)|eauto 6|split; [reflexivity|right; eauto 7]]
    end.
Qed.

(** X23. A model built by [load_model] has the module's [model_name], and
    its device and compute type go together: "cuda" with "float16" when
    torch is importable and reports CUDA, "cpu" with "int8" otherwise. *)
Theorem load_model_device (env : model_env) (cached : option whisper)
    (m : whisper) :
  load_model_run env None = (Returned m, cached) ->
  model_size m = model_name env /\
  whisper_model_init env m = InitOk /\
  ((torch_cuda env = inr (Some true) /\
    model_device m = "cuda" /\ model_compute_type m = "float16")
   \/ ((torch_cuda env = inr (Some false) \/ torch_cuda env = inr None) /\
       model_device m = "cpu" /\ model_compute_type m = "int8")).
Proof.
  unfold load_model_run. intros E.
  destruct (faster_whisper_importable env); [|discriminate E].
  destruct (torch_cuda env) as [e|[[|]|]]; [discriminate E| | |];
    match type of E with
    | match whisper_model_init env ?m with _ => _ end = _ =>
        destruct (whisper_model_init env m) eqn:I; try discriminate E;
        injection E as <- _; split; [reflexivity|]; split; [exact I|]
    end;
    [left|right|right]; repeat split; auto.
Qed.

(** X24. After any call of [load_model], [GET /health] answers 200 and
    reports [ready] exactly when that call returned a model; any other
    path is answered with 404. *)
Theorem health_reports_cache (env : model_env) (whisper_model : option whisper)
    (path : string) :
  let out := fst (load_model_run env whisper_model) in
  let cached := snd (load_model_run env whisper_model) in
  do_GET env cached "/health"
  = send_json (JsonHealth "healthy" (model_name env)
                 match out with Returned _ => true | _ => false end) 200 /\
  (path <> "/health" ->
   do_GET env cached path = send_json (JsonError "Not found") 404).
Proof.
  cbv zeta. split.
  - unfold do_GET, load_model_run. cbn [String.eqb Ascii.eqb Bool.eqb].
    destruct whisper_model as [m0|]; [reflexivity|].
    destruct (faster_whisper_importable env); [|reflexivity].
    destruct (torch_cuda env) as [e|[[|]|]]; [reflexivity| | |];
      match goal with
      | |- context [whisper_model_init env ?m] =>
          destruct (whisper_model_init env m)
      end; reflexivity.
  - intros N. unfold do_GET.
    destruct (String.eqb_spec path "/health"); [contradiction|reflexivity].
Qed.

Lemma load_model_cached_witness :
  load_model_run broken_env
    (snd (load_model_run sample_env None))
  = (Returned {| model_size := "base.en"; model_device := "cpu";
                 model_compute_type := "int8" |},
     Some {| model_size := "base.en"; model_device := "cpu";
             model_compute_type := "int8" |}).
Proof.
  apply (proj2 (load_model_cached sample_env None _ _ eq_refl) broken_env).
Defined.

Lemma load_model_failure_witness :
  snd (load_model_run broken_env None) = None.
Proof.
  destruct (load_model_run broken_env None) as [out cached] eqn:E.
  refine (proj1 (proj2 (load_model_failure broken_env None cached out E _))).
  vm_compute in E. injection E as <- _. discriminate.
Defined.

Lemma load_model_device_witness :
  exists m,
    fst (load_model_run sample_env None) = Returned m /\
    model_device m = "cpu" /\ model_compute_type m = "int8".
Proof.
  eexists. split; [reflexivity|].
  destruct (load_model_device sample_env _ _ eq_refl)
    as (_ & _ & [(C & _)|(_ & D)]); [discriminate C|exact D].
Defined.

Lemma health_reports_cache_witness :
  do_GET sample_env (snd (load_model_run sample_env None)) "/healthz"
  = send_json (JsonError "Not found") 404.
Proof.
  apply (proj2 (health_reports_cache sample_env None "/healthz")).
  discriminate.
Defined.
